(** * Backfill of per-project task sequence numbers

    A shallow embedding of [scripts/backfill-project-sequence.py] and the
    properties of one run of it.

    The script talks to an SQLite file through Python's [sqlite3] module.
    The embedding keeps the script's own structure (a select, a loop over the
    fetched rows with a dictionary, a commit, a guarded index creation, a
    count) and models the engine underneath it as far as the script can
    observe it:

    - the [tasks] table is a list of rows in storage order; the first query
      reads it along the index on [(project_id, project_sequence)] once that
      index exists, and in storage order before, which decides the order of
      rows that the [ORDER BY] does not tell apart;
    - the connection holds the durable store, the uncommitted working copy of
      an open transaction, and the standard output written so far;
    - every call into the engine may raise: either for a reason of the
      environment (an arbitrary schedule [fault] decides which calls do), or
      because a write breaks the unique index;
    - an exception that nobody catches ends the process, and what is then on
      disk is the durable store: the open transaction is lost. *)

From stdpp Require Import gmap list sorting.
From Stdlib Require Import ZArith Lia.

Local Open Scope Z_scope.

(** ** The table *)

(** One row of [tasks], with the five columns the script reads or writes.
    The schema is not part of the script: [id] and [project_id] are integer
    keys, the timestamps are integers, [deleted_at] and [project_sequence]
    are nullable. *)
Record Task := mkTask {
  id : Z;
  project_id : Z;
  created_at : Z;
  deleted_at : option Z;
  project_sequence : option Z
}.

#[global] Instance Task_eq_dec : EqDecision Task.
Proof. solve_decision. Defined.

(** The store: the rows in storage order, and whether the index
    [task_project_sequence_idx] exists. *)
Record Store := mkStore {
  rows : list Task;
  task_project_sequence_idx : bool
}.

#[global] Instance Store_eq_dec : EqDecision Store.
Proof. solve_decision. Defined.

(** [WHERE deleted_at IS NULL] *)
Definition live (t : Task) : Prop := deleted_at t = None.

#[global] Instance live_dec t : Decision (live t).
Proof. unfold live. apply _. Defined.

(** [ORDER BY project_id, created_at ASC]: the comparison of two rows, and a
    sort that keeps rows with equal keys in the order in which they come. *)
Definition key_le (a b : Task) : bool :=
  (project_id a <? project_id b)
  || ((project_id a =? project_id b) && (created_at a <=? created_at b)).

Fixpoint insert_row (t : Task) (l : list Task) : list Task :=
  match l with
  | [] => [t]
  | u :: l' => if key_le t u then t :: l else u :: insert_row t l'
  end.

Definition order_by (l : list Task) : list Task := foldr insert_row [] l.

(** The entries of the index [task_project_sequence_idx] are ordered by
    [project_id], then by [project_sequence] with NULL first; entries that
    are equal are in storage order. *)
Definition null_first_le (x y : option Z) : bool :=
  match x, y with
  | None, _ => true
  | Some _, None => false
  | Some a, Some b => a <=? b
  end.

Definition entry_le (a b : Task) : bool :=
  (project_id a <? project_id b)
  || ((project_id a =? project_id b)
      && null_first_le (project_sequence a) (project_sequence b)).

Fixpoint insert_entry (t : Task) (l : list Task) : list Task :=
  match l with
  | [] => [t]
  | u :: l' => if entry_le t u then t :: l else u :: insert_entry t l'
  end.

Definition index_scan (l : list Task) : list Task := foldr insert_entry [] l.

(** The order in which the engine reads the rows for the first query: it
    walks the index on [(project_id, project_sequence)] when the table has
    it, and the table in storage order when it has not. Rows that the
    [ORDER BY] does not tell apart come back in this order. *)
Definition scan (s : Store) : list Task :=
  if task_project_sequence_idx s then index_scan (rows s) else rows s.

(** The rows the first query returns, as whole rows. *)
Definition selected (s : Store) : list Task := order_by (filter live (scan s)).

(** [SELECT id, project_id FROM tasks WHERE deleted_at IS NULL
     ORDER BY project_id, created_at ASC] *)
Definition select_tasks (s : Store) : list (Z * Z) :=
  (λ t, (id t, project_id t)) <$> selected s.

Definition set_sequence (sequence : Z) (t : Task) : Task :=
  {| id := id t; project_id := project_id t; created_at := created_at t;
     deleted_at := deleted_at t; project_sequence := Some sequence |}.

(** [UPDATE tasks SET project_sequence = ? WHERE id = ?] *)
Definition update_tasks (sequence task_id : Z) (ts : list Task) : list Task :=
  (λ t, if decide (id t = task_id) then set_sequence sequence t else t) <$> ts.

(** The entries of the unique index on [(project_id, project_sequence)]: a
    row whose sequence is NULL has no entry that can collide. *)
Definition index_key (t : Task) : option (Z * Z) :=
  (λ s, (project_id t, s)) <$> project_sequence t.

Definition index_keys (ts : list Task) : list (Z * Z) := omap index_key ts.

Definition unique_ok (ts : list Task) : bool := bool_decide (NoDup (index_keys ts)).

(** [SELECT COUNT( * ) FROM tasks WHERE project_sequence IS NOT NULL] *)
Definition count_sequenced (ts : list Task) : Z :=
  Z.of_nat (length (filter (λ t, is_Some (project_sequence t)) ts)).

(** ** The connection and the script's effects *)

Inductive Error := OperationalError | IntegrityError | KeyError.

#[global] Instance Error_eq_dec : EqDecision Error.
Proof. solve_decision. Defined.

(** The statements the script sends. *)
Inductive Stmt :=
  | SelectTasks
  | UpdateSeq (sequence task_id : Z)
  | Commit
  | CreateIndex
  | CountSeq.

#[global] Instance Stmt_eq_dec : EqDecision Stmt.
Proof. solve_decision. Defined.

(** The lines the script prints. *)
Inductive Line :=
  | TaskLine (task_id project_id sequence : Z)
  | IndexCreated
  | IndexFailed (e : Error)
  | CountLine (count : Z).

#[global] Instance Line_eq_dec : EqDecision Line.
Proof. solve_decision. Defined.

Inductive Event :=
  | Exec (s : Stmt)
  | Print (l : Line).

#[global] Instance Event_eq_dec : EqDecision Event.
Proof. solve_decision. Defined.

(** [disk] is what a later process finds; [txn] is the working copy of the
    open transaction, if one is open; [calls] counts the calls into the
    engine; [log] is the history of statements sent and lines printed. *)
Record Conn := mkConn {
  disk : Store;
  txn : option Store;
  calls : nat;
  log : list Event
}.

(** What this connection reads. *)
Definition view (w : Conn) : Store := default (disk w) (txn w).

Inductive Res (A : Type) :=
  | Ok (a : A) (w : Conn)
  | Raise (e : Error) (w : Conn).
Arguments Ok {A} a w.
Arguments Raise {A} e w.

Definition M (A : Type) : Type := Conn → Res A.

#[global] Instance M_ret : MRet M := λ A a w, Ok a w.

#[global] Instance M_bind : MBind M := λ A B f m w,
  match m w with
  | Ok a w' => f a w'
  | Raise e w' => Raise e w'
  end.

Definition raise {A} (e : Error) : M A := λ w, Raise e w.

(** [try: body except Exception as e: handler(e)] *)
Definition try_except {A} (body : M A) (handler : Error → M A) : M A := λ w,
  match body w with
  | Ok a w' => Ok a w'
  | Raise e w' => handler e w'
  end.

Definition print (l : Line) : M unit := λ w,
  Ok () (mkConn (disk w) (txn w) (calls w) (log w ++ [Print l])).

(** [project_sequences[project_id]] *)
Definition subscript (project_sequences : gmap Z Z) (project_id : Z) : M Z :=
  match project_sequences !! project_id with
  | Some n => mret n
  | None => raise KeyError
  end.

(** Reading the store, opening a transaction if none is open, and writing
    the store: inside a transaction a write goes to the working copy, outside
    one it is durable at once. *)
Definition read : M Store := λ w, Ok (view w) w.

Definition begin : M unit := λ w,
  Ok () (mkConn (disk w) (Some (view w)) (calls w) (log w)).

Definition write (s : Store) : M unit := λ w,
  Ok () match txn w with
        | Some _ => mkConn (disk w) (Some s) (calls w) (log w)
        | None => mkConn s None (calls w) (log w)
        end.

Definition end_txn : M unit := λ w,
  Ok () (mkConn (view w) None (calls w) (log w)).

Section Script.

(** [fault k] says that the [k]-th call into the engine fails for a reason
    of the environment. *)
Variable fault : nat → bool.

(** Every statement and every commit is one call into the engine. *)
Definition call (s : Stmt) : M unit := λ w,
  let w' := mkConn (disk w) (txn w) (S (calls w)) (log w ++ [Exec s]) in
  if fault (calls w) then Raise OperationalError w' else Ok () w'.

(** [cursor.execute(SELECT ...)] followed by [cursor.fetchall()] *)
Definition execute_select : M (list (Z * Z)) :=
  call SelectTasks;;
  s ← read;
  mret (select_tasks s).

(** [cursor.execute("UPDATE ...", (sequence, task_id))]. The module opens a
    transaction before a data-modification statement; the statement is
    refused when the index exists and the rows it would leave break it. *)
Definition execute_update (sequence task_id : Z) : M unit :=
  call (UpdateSeq sequence task_id);;
  begin;;
  s ← read;
  let rows' := update_tasks sequence task_id (rows s) in
  if task_project_sequence_idx s && negb (unique_ok rows')
  then raise IntegrityError
  else write (mkStore rows' (task_project_sequence_idx s)).

(** [conn.commit()] *)
Definition commit : M unit :=
  call Commit;;
  end_txn.

(** [cursor.execute("CREATE UNIQUE INDEX IF NOT EXISTS ...")]. A
    data-definition statement opens no transaction. *)
Definition execute_create_index : M unit :=
  call CreateIndex;;
  s ← read;
  if task_project_sequence_idx s then mret ()
  else if unique_ok (rows s) then write (mkStore (rows s) true)
  else raise IntegrityError.

(** [cursor.execute(SELECT COUNT ...)] followed by [cursor.fetchone()[0]] *)
Definition execute_count : M Z :=
  call CountSeq;;
  s ← read;
  mret (count_sequenced (rows s)).

(** The loop over the fetched rows, with the dictionary it carries. *)
Fixpoint assign_loop (tasks : list (Z * Z)) (project_sequences : gmap Z Z)
  : M (gmap Z Z) :=
  match tasks with
  | [] => mret project_sequences
  | (task_id, project_id) :: tasks =>
      let project_sequences :=
        match project_sequences !! project_id with
        | None => <[project_id := 1]> project_sequences
        | Some n => <[project_id := n + 1]> project_sequences
        end in
      sequence ← subscript project_sequences project_id;
      execute_update sequence task_id;;
      print (TaskLine task_id project_id sequence);;
      assign_loop tasks project_sequences
  end.

(** [# Create unique index]: nothing that the statement or the commit
    raises leaves the [try]. *)
Definition create_unique_index : M unit :=
  try_except
    (execute_create_index;; commit;; print IndexCreated)
    (λ e, print (IndexFailed e)).

(** [# Verify] *)
Definition verify : M unit :=
  count ← execute_count;
  print (CountLine count).

(** The script, from the first query to the last line printed. *)
Definition backfill : M unit :=
  tasks ← execute_select;
  assign_loop tasks ∅;;
  commit;;
  create_unique_index;;
  verify.

End Script.

(** [sqlite3.connect(...)]: a fresh connection to the store. *)
Definition connect (s : Store) : Conn := mkConn s None 0 [].

(** One run of the script on a store. *)
Definition run (fault : nat → bool) (s : Store) : Res unit :=
  backfill fault (connect s).

Definition no_faults : nat → bool := λ _, false.

Definition world {A} (r : Res A) : Conn :=
  match r with Ok _ w => w | Raise _ w => w end.

(** What is on disk once the process has ended: an open transaction is
    lost, whether the script closed the connection or died. *)
Definition stored {A} (r : Res A) : Store := disk (world r).

Definition output {A} (r : Res A) : list Event := log (world r).

Definition completed {A} (r : Res A) : Prop :=
  match r with Ok _ _ => True | Raise _ _ => False end.

#[global] Instance completed_dec {A} (r : Res A) : Decision (completed r).
Proof. destruct r; simpl; apply _. Defined.

Definition raised {A} (r : Res A) : option Error :=
  match r with Ok _ _ => None | Raise e _ => Some e end.

(** The [UPDATE] statements of a history, in order, as
    [(task_id, sequence)]. *)
Definition updates_of (l : list Event) : list (Z * Z) :=
  omap (λ e, match e with
             | Exec (UpdateSeq sequence task_id) => Some (task_id, sequence)
             | _ => None
             end) l.

(** The count the last line reports, if it was printed. *)
Definition reported (l : list Event) : option Z :=
  last (omap (λ e, match e with Print (CountLine n) => Some n | _ => None end) l).

(** ** The worked example of the specification *)

Definition example_rows (t1 t2 t3 t4 t5 : Z) : list Task :=
  [ mkTask 12 7 t2 None None;
    mkTask 14 9 t4 None None;
    mkTask 15 7 t5 (Some 99) None;
    mkTask 13 7 t3 None None;
    mkTask 11 7 t1 None None ].

Definition example_result (t1 t2 t3 t4 t5 : Z) : list Task :=
  [ mkTask 12 7 t2 None (Some 2);
    mkTask 14 9 t4 None (Some 1);
    mkTask 15 7 t5 (Some 99) None;
    mkTask 13 7 t3 None (Some 3);
    mkTask 11 7 t1 None (Some 1) ].

Definition example_store : Store :=
  mkStore (example_rows 10 20 30 40 50) true.

(** A store in which two deleted rows already hold the same number. *)
Definition conflict_store : Store :=
  mkStore [ mkTask 1 7 10 (Some 5) (Some 1);
            mkTask 2 7 20 (Some 6) (Some 1);
            mkTask 3 7 30 None None ] false.

(** A store that was numbered before, in another order, and has the
    index. *)
Definition stale_store : Store :=
  mkStore [ mkTask 1 7 10 None (Some 2);
            mkTask 2 7 20 None (Some 1) ] true.

(** Two tasks created at the same time, numbered against storage order,
    with the index. *)
Definition tied_store : Store :=
  mkStore [ mkTask 1 7 10 None (Some 2);
            mkTask 2 7 10 None (Some 1) ] true.

(** Two tasks created at the same time, with the index: holding old numbers
    against storage order, and holding none. *)
Definition old_tied_store : Store :=
  mkStore [ mkTask 1 7 10 None (Some 5);
            mkTask 2 7 10 None (Some 4) ] true.

Definition new_tied_store : Store :=
  mkStore [ mkTask 1 7 10 None None;
            mkTask 2 7 10 None None ] true.

(** Two tasks created at the same time, one numbered, with the index. *)
Definition half_numbered_store : Store :=
  mkStore [ mkTask 1 7 10 None (Some 1);
            mkTask 2 7 10 None None ] true.

(** The schedule in which exactly the [n]-th call fails. *)
Definition fail_at (n : nat) : nat → bool := λ k, bool_decide (k = n).

(** ** The plan of a run

    What the loop does to the store and to the output depends only on the
    rows the query returned. The definitions below name that: they are the
    vocabulary of the statements, and the lemmas relate the script to them. *)

(** One turn of the loop: the row it is for and the number it computes. *)
Record Assignment := mkAssign {
  a_task_id : Z;
  a_project_id : Z;
  a_sequence : Z
}.

#[global] Instance Assignment_eq_dec : EqDecision Assignment.
Proof. solve_decision. Defined.

(** [cnt p] rows of project [p] have been seen so far. *)
Definition bump (p : Z) (cnt : Z → nat) : Z → nat :=
  λ q, if decide (q = p) then S (cnt q) else cnt q.

Fixpoint numbered (cnt : Z → nat) (tasks : list (Z * Z)) : list Assignment :=
  match tasks with
  | [] => []
  | (task_id, project_id) :: tasks =>
      mkAssign task_id project_id (Z.of_nat (S (cnt project_id)))
        :: numbered (bump project_id cnt) tasks
  end.

(** The query result from a given scan order. *)
Definition fetched (sc : list Task) : list Task := order_by (filter live sc).

Definition fetched_tasks (sc : list Task) : list (Z * Z) :=
  (λ t, (id t, project_id t)) <$> fetched sc.

(** The turns of the loop when the rows are scanned in the order [sc]. *)
Definition plan (sc : list Task) : list Assignment :=
  numbered (λ _, 0%nat) (fetched_tasks sc).

(** The dictionary of the loop holds the counts [cnt]. *)
Definition tally (cnt : Z → nat) (project_sequences : gmap Z Z) : Prop :=
  ∀ p, project_sequences !! p =
       match cnt p with O => None | S n => Some (Z.of_nat (S n)) end.

Definition apply_update (ts : list Task) (a : Assignment) : list Task :=
  update_tasks (a_sequence a) (a_task_id a) ts.

Definition apply_updates (U : list Assignment) (ts : list Task) : list Task :=
  foldl apply_update ts U.

(** The same, seen from one row. *)
Definition stamp1 (t : Task) (a : Assignment) : Task :=
  if decide (id t = a_task_id a) then set_sequence (a_sequence a) t else t.

Definition stamp (U : list Assignment) (t : Task) : Task := foldl stamp1 t U.

Definition events_of (U : list Assignment) : list Event :=
  U ≫= λ a, [Exec (UpdateSeq (a_sequence a) (a_task_id a));
             Print (TaskLine (a_task_id a) (a_project_id a) (a_sequence a))].

(** The connection after the loop has run through [U] without an error. *)
Definition after_loop (U : list Assignment) (w : Conn) : Conn :=
  mkConn (disk w)
         match U with
         | [] => txn w
         | _ => Some (mkStore (apply_updates U (rows (view w)))
                              (task_project_sequence_idx (view w)))
         end
         (calls w + length U) (log w ++ events_of U).

(** The number of rows of project [p] in a query result. *)
Definition occ (p : Z) (tasks : list (Z * Z)) : nat :=
  length (filter (λ r, r.2 = p) tasks).

(** The rows of project [p] that are not deleted. *)
Definition live_in (p : Z) (t : Task) : Prop := project_id t = p ∧ live t.

#[global] Instance live_in_dec p t : Decision (live_in p t).
Proof. unfold live_in. apply _. Defined.

(** The columns the script does not write. *)
Definition fixed_columns (t : Task) : Z * Z * Z * option Z :=
  (id t, project_id t, created_at t, deleted_at t).

(** The result of the query is in the order of [key_le]. *)
Definition sorted_rows (l : list Task) : Prop :=
  StronglySorted (λ a b, key_le a b = true) l.

(** The index, where it exists, holds of the rows. *)
Definition well_formed (s : Store) : Prop :=
  task_project_sequence_idx s = true → unique_ok (rows s) = true.

#[global] Instance well_formed_dec s : Decision (well_formed s).
Proof. unfold well_formed. apply _. Defined.

(** The progress lines of a history, in order, as [(task_id, sequence)]. *)
Definition task_lines_of (l : list Event) : list (Z * Z) :=
  omap (λ e, match e with
             | Print (TaskLine task_id _ sequence) => Some (task_id, sequence)
             | _ => None
             end) l.

(** Two rows that differ at most in the number they hold, and not at all
    when they are deleted. *)
Definition same_but_number (t t' : Task) : Prop :=
  fixed_columns t = fixed_columns t' ∧ (deleted_at t ≠ None → t = t').

#[global] Instance same_but_number_dec t t' : Decision (same_but_number t t').
Proof. unfold same_but_number. apply _. Defined.

(** The rows of [stale_store], without the index. *)
Definition renumbered_store : Store :=
  mkStore [ mkTask 1 7 10 None (Some 2);
            mkTask 2 7 20 None (Some 1) ] false.

Definition unnumbered_store : Store :=
  mkStore [ mkTask 1 7 10 None None;
            mkTask 2 7 20 None None ] false.

(** A store whose only rows are deleted. *)
Definition deleted_store : Store :=
  mkStore [ mkTask 1 7 10 (Some 5) (Some 4);
            mkTask 2 9 20 (Some 6) None ] false.

(** The order of a query result whose rows were scanned along the index:
    by [(project_id, created_at)], and by the index entry among rows that
    the [ORDER BY] does not tell apart. *)
Definition lex_le (a b : Task) : Prop :=
  key_le a b = true ∧ (key_le b a = true → entry_le a b = true).

(** * Properties *)

(** ** The script at work *)

Example run_example_store :
  run no_faults example_store
  = Ok () {| disk := mkStore (example_result 10 20 30 40 50) true;
             txn := None;
             calls := 9;
             log := [ Exec SelectTasks;
                      Exec (UpdateSeq 1 11); Print (TaskLine 11 7 1);
                      Exec (UpdateSeq 2 12); Print (TaskLine 12 7 2);
                      Exec (UpdateSeq 3 13); Print (TaskLine 13 7 3);
                      Exec (UpdateSeq 1 14); Print (TaskLine 14 9 1);
                      Exec Commit;
                      Exec CreateIndex; Exec Commit; Print IndexCreated;
                      Exec CountSeq; Print (CountLine 4) ] |}.
Proof. vm_compute. reflexivity. Qed.

(** The first write collides with the number the other row still holds:
    the run dies in the loop and the store is as before. *)
Example run_stale_store :
  raised (run no_faults stale_store) = Some IntegrityError
  ∧ output (run no_faults stale_store) = [Exec SelectTasks; Exec (UpdateSeq 1 1)]
  ∧ stored (run no_faults stale_store) = stale_store.
Proof. vm_compute. done. Qed.

(** Two deleted rows hold the same number: the index cannot be created, the
    error is printed and the run goes on to the count. *)
Example run_conflict_store :
  run no_faults conflict_store
  = Ok () {| disk := mkStore [ mkTask 1 7 10 (Some 5) (Some 1);
                               mkTask 2 7 20 (Some 6) (Some 1);
                               mkTask 3 7 30 None (Some 1) ] false;
             txn := None;
             calls := 5;
             log := [ Exec SelectTasks;
                      Exec (UpdateSeq 1 3); Print (TaskLine 3 7 1);
                      Exec Commit;
                      Exec CreateIndex; Print (IndexFailed IntegrityError);
                      Exec CountSeq; Print (CountLine 3) ] |}.
Proof. vm_compute. reflexivity. Qed.

(** With the index, rows created at the same time come back in the order
    of their numbers: here the second row first, and every write stores what
    the row holds already. *)
Example run_tied_store :
  select_tasks tied_store = [(2, 7); (1, 7)]
  ∧ completed (run no_faults tied_store)
  ∧ updates_of (output (run no_faults tied_store)) = [(2, 1); (1, 2)]
  ∧ stored (run no_faults tied_store) = tied_store.
Proof. vm_compute. done. Qed.

(** A row without a number comes first along the index: it is given 1,
    which the other row holds. *)
Example run_half_numbered_store :
  select_tasks half_numbered_store = [(2, 7); (1, 7)]
  ∧ raised (run no_faults half_numbered_store) = Some IntegrityError
  ∧ output (run no_faults half_numbered_store)
    = [Exec SelectTasks; Exec (UpdateSeq 1 2)]
  ∧ stored (run no_faults half_numbered_store) = half_numbered_store.
Proof. vm_compute. done. Qed.

(** ** The sort *)

Lemma key_le_spec a b :
  key_le a b = true ↔
  project_id a < project_id b
  ∨ (project_id a = project_id b ∧ created_at a ≤ created_at b).
Proof. unfold key_le. rewrite orb_true_iff, andb_true_iff. lia. Qed.

Lemma key_le_false a b : key_le a b = false → key_le b a = true.
Proof.
  intros H. apply key_le_spec.
  destruct (key_le a b) eqn:E; [done|].
  apply not_true_iff_false in E. rewrite key_le_spec in E. lia.
Qed.

Lemma key_le_trans a b c :
  key_le a b = true → key_le b c = true → key_le a c = true.
Proof. rewrite !key_le_spec. lia. Qed.

Lemma insert_row_perm t l : insert_row t l ≡ₚ t :: l.
Proof.
  induction l as [|u l IH]; simpl; [done|].
  destruct (key_le t u); [done|].
  rewrite IH. apply Permutation_swap.
Qed.

Lemma order_by_perm l : order_by l ≡ₚ l.
Proof.
  induction l as [|t l IH]; simpl; [done|].
  rewrite insert_row_perm. by rewrite IH.
Qed.

Lemma insert_row_sorted t l : sorted_rows l → sorted_rows (insert_row t l).
Proof.
  unfold sorted_rows. induction 1 as [|u l Hl IH Hu]; simpl.
  - repeat constructor.
  - destruct (key_le t u) eqn:E.
    + constructor; [by constructor|].
      constructor; [done|].
      eapply Forall_impl; [exact Hu|]. intros c Hc. by eapply key_le_trans.
    + constructor; [done|].
      rewrite insert_row_perm. constructor; [|done]. by apply key_le_false.
Qed.

Lemma order_by_sorted l : sorted_rows (order_by l).
Proof.
  induction l as [|t l IH]; simpl; [constructor|]. by apply insert_row_sorted.
Qed.

Lemma selected_perm ts : fetched ts ≡ₚ filter live ts.
Proof. apply order_by_perm. Qed.

Lemma selected_sorted ts : sorted_rows (fetched ts).
Proof. apply order_by_sorted. Qed.

Lemma elem_of_selected t ts : t ∈ fetched ts ↔ t ∈ ts ∧ live t.
Proof. rewrite selected_perm, list_elem_of_filter. tauto. Qed.

Lemma NoDup_selected_ids ts :
  NoDup (id <$> ts) → NoDup (id <$> fetched ts).
Proof.
  intros H. rewrite selected_perm.
  eapply sublist_NoDup; [exact H|]. apply fmap_sublist, sublist_filter.
Qed.

(** ** Lists *)

Lemma filter_fmap_iff {A B} (f : A → B) (P : B → Prop) (Q : A → Prop)
    `{!∀ x, Decision (P x), !∀ x, Decision (Q x)} (l : list A) :
  (∀ x, P (f x) ↔ Q x) → filter P (f <$> l) = f <$> filter Q l.
Proof.
  intros HPQ. induction l as [|x l IH]; [done|].
  rewrite fmap_cons, !filter_cons, IH.
  destruct (decide (P (f x))) as [HP|HP], (decide (Q x)) as [HQ|HQ];
    try done; exfalso; [by apply HQ, HPQ | by apply HP, HPQ].
Qed.

Lemma seq_seqZ (c n : nat) :
  Z.of_nat <$> seq (S c) n = seqZ (Z.of_nat c + 1) (Z.of_nat n).
Proof.
  assert (seq (S c) n = Nat.add (S c) <$> seq 0 n) as ->.
  { rewrite fmap_add_seq. f_equal. lia. }
  unfold seqZ. rewrite Nat2Z.id, <- list_fmap_compose.
  apply list_fmap_ext. intros _ i _. simpl. lia.
Qed.

Lemma length_filter_zero {A} (P : A → Prop) `{!∀ x, Decision (P x)} (l : list A) :
  length (filter P l) = 0%nat ↔ Forall (λ x, ¬ P x) l.
Proof.
  induction l as [|x l IH]; [by split; [constructor|]|].
  rewrite filter_cons, Forall_cons. destruct (decide (P x)); simpl.
  - split; [lia|tauto].
  - rewrite IH. tauto.
Qed.

Lemma length_filter_fmap_iff {A B} (f : A → B) (P : B → Prop) (Q : A → Prop)
    `{!∀ x, Decision (P x), !∀ x, Decision (Q x)} (l : list A) :
  (∀ x, x ∈ l → (P (f x) ↔ Q x)) →
  length (filter P (f <$> l)) = length (filter Q l).
Proof.
  induction l as [|x l IH]; intros HPQ; [done|].
  rewrite fmap_cons, !filter_cons.
  assert (P (f x) ↔ Q x) as Hx by (apply HPQ; left).
  assert (length (filter P (f <$> l)) = length (filter Q l)) as IH'.
  { apply IH. intros y Hy. apply HPQ. by right. }
  destruct (decide (P (f x))) as [HP|HP], (decide (Q x)) as [HQ|HQ];
    simpl; rewrite ?IH'; try done; exfalso; tauto.
Qed.

Lemma length_filter_or {A} (P R : A → Prop)
    `{!∀ x, Decision (P x), !∀ x, Decision (R x)} (l : list A) :
  length (filter (λ x, P x ∨ R x) l)
  = (length (filter P l) + length (filter (λ x, ¬ P x ∧ R x) l))%nat.
Proof.
  induction l as [|x l IH]; [done|]. rewrite !filter_cons.
  destruct (decide (P x)) as [HP|HP], (decide (R x)) as [HR|HR].
  - rewrite decide_True, decide_False by tauto. simpl. lia.
  - rewrite decide_True, decide_False by tauto. simpl. lia.
  - rewrite decide_True, decide_True by tauto. simpl. lia.
  - rewrite decide_False, decide_False by tauto. simpl. lia.
Qed.

(** ** The numbers the loop computes *)

Lemma occ_nil p : occ p [] = 0%nat.
Proof. done. Qed.

Lemma occ_cons p i q l :
  occ p ((i, q) :: l) = ((if decide (q = p) then 1 else 0) + occ p l)%nat.
Proof.
  unfold occ. rewrite filter_cons. simpl. by destruct (decide (q = p)).
Qed.

Lemma occ_app p l1 l2 : occ p (l1 ++ l2) = (occ p l1 + occ p l2)%nat.
Proof. unfold occ. by rewrite filter_app, length_app. Qed.

Lemma numbered_length cnt tasks : length (numbered cnt tasks) = length tasks.
Proof.
  revert cnt. induction tasks as [|[i p] tasks IH]; intros cnt; simpl; [done|].
  by rewrite IH.
Qed.

Lemma numbered_tasks cnt tasks :
  (λ a, (a_task_id a, a_project_id a)) <$> numbered cnt tasks = tasks.
Proof.
  revert cnt. induction tasks as [|[i p] tasks IH]; intros cnt; simpl; [done|].
  by rewrite IH.
Qed.

Lemma numbered_lookup cnt tasks k a :
  numbered cnt tasks !! k = Some a ↔
  tasks !! k = Some (a_task_id a, a_project_id a)
  ∧ a_sequence a
    = Z.of_nat (S (cnt (a_project_id a) + occ (a_project_id a) (take k tasks))).
Proof.
  revert cnt k. induction tasks as [|[i p] tasks IH]; intros cnt k.
  - simpl. rewrite !lookup_nil. split; [done|]. by intros [? _].
  - destruct k as [|k]; simpl.
    + rewrite occ_nil, Nat.add_0_r. destruct a as [i' p' s']; simpl.
      split.
      * intros H. injection H as <- <- <-. done.
      * intros [H ->]. injection H as -> ->. done.
    + rewrite IH, occ_cons. unfold bump.
      destruct (decide (a_project_id a = p)) as [->|Hne].
      * rewrite decide_True by done.
        replace (S (cnt p) + occ p (take k tasks))%nat
          with (cnt p + (1 + occ p (take k tasks)))%nat by lia. done.
      * rewrite decide_False by done. done.
Qed.

Lemma plan_length ts : length (plan ts) = length (fetched ts).
Proof. unfold plan, fetched_tasks. by rewrite numbered_length, length_fmap. Qed.

Lemma plan_ids ts : a_task_id <$> plan ts = id <$> fetched ts.
Proof.
  unfold plan.
  transitivity (fst <$> ((λ a, (a_task_id a, a_project_id a))
                           <$> numbered (λ _, 0%nat) (fetched_tasks ts))).
  - by rewrite <- list_fmap_compose.
  - rewrite numbered_tasks. unfold fetched_tasks. by rewrite <- list_fmap_compose.
Qed.

(** The [k]-th turn of the loop is for the [k]-th row of the query, and its
    number is one more than the number of earlier rows of the same project. *)
Lemma plan_lookup ts k t :
  fetched ts !! k = Some t →
  plan ts !! k
  = Some (mkAssign (id t) (project_id t)
            (Z.of_nat (S (occ (project_id t) (take k (fetched_tasks ts)))))).
Proof.
  intros Ht. unfold plan. apply numbered_lookup. simpl. split; [|done].
  unfold fetched_tasks. by rewrite list_lookup_fmap, Ht.
Qed.

Lemma plan_lookup_inv ts k a :
  plan ts !! k = Some a →
  ∃ t, fetched ts !! k = Some t
       ∧ a = mkAssign (id t) (project_id t)
               (Z.of_nat (S (occ (project_id t) (take k (fetched_tasks ts))))).
Proof.
  intros Ha. destruct (fetched ts !! k) as [t|] eqn:Ht.
  - exists t. split; [done|]. rewrite (plan_lookup _ _ _ Ht) in Ha. congruence.
  - apply lookup_ge_None in Ht. apply lookup_lt_Some in Ha.
    rewrite plan_length in Ha. lia.
Qed.

Lemma occ_take_mono p (tasks : list (Z * Z)) i j r :
  (i < j)%nat → tasks !! i = Some r → r.2 = p →
  (occ p (take i tasks) < occ p (take j tasks))%nat.
Proof.
  intros Hij Hi Hp.
  rewrite <- (take_drop i (take j tasks)), take_take, Nat.min_l by lia.
  rewrite occ_app. 
  assert (take j tasks !! i = Some r) as Hi'.
  { by rewrite lookup_take_lt. }
  destruct (drop i (take j tasks)) as [|r' rest] eqn:Hd.
  - apply (f_equal length) in Hd. rewrite length_drop in Hd.
    apply lookup_lt_Some in Hi'. simpl in Hd. lia.
  - assert (r' = r) as ->.
    { pose proof (lookup_drop (take j tasks) i 0) as Hl.
      rewrite Hd, Nat.add_0_r, Hi' in Hl. simpl in Hl. congruence. }
    destruct r as [ri rp]. simpl in Hp. subst rp.
    rewrite occ_cons, decide_True by done. lia.
Qed.

(** ** Keys and positions *)

Lemma NoDup_fmap_eq {A B} (f : A → B) (l : list A) x y :
  NoDup (f <$> l) → x ∈ l → y ∈ l → f x = f y → x = y.
Proof.
  intros Hnd [i Hi]%list_elem_of_lookup [j Hj]%list_elem_of_lookup Hf.
  assert (i = j) as ->; [|congruence].
  eapply NoDup_lookup; [exact Hnd| |].
  - by rewrite list_lookup_fmap, Hi.
  - rewrite list_lookup_fmap, Hj. simpl. by rewrite Hf.
Qed.

Lemma NoDup_omap_fmap {A B C} (g : A → B) (f : B → option C) (l : list A) :
  NoDup l →
  (∀ x y z, x ∈ l → y ∈ l → f (g x) = Some z → f (g y) = Some z → x = y) →
  NoDup (omap f (g <$> l)).
Proof.
  induction 1 as [|x l Hx Hnd IH]; intros Hinj; [constructor|].
  rewrite fmap_cons. simpl. 
  assert (NoDup (omap f (g <$> l))) as IH'.
  { apply IH. intros a b z Ha Hb. apply Hinj; by right. }
  destruct (f (g x)) as [z|] eqn:Hz; [|done].
  constructor; [|done].
  intros (y' & Hy' & Hfy)%list_elem_of_omap.
  apply list_elem_of_fmap in Hy' as (y & -> & Hy).
  apply Hx. rewrite (Hinj x y z); [done|by left|by right|done|done].
Qed.

Lemma length_filter_eq_NoDup {A} `{!EqDecision A} (l : list A) x :
  NoDup l → x ∈ l → length (filter (λ y, y = x) l) = 1%nat.
Proof.
  induction 1 as [|y l Hy Hnd IH]; intros Hx; [by apply elem_of_nil in Hx|].
  rewrite filter_cons. destruct (decide (y = x)) as [->|Hne].
  - simpl. f_equal. apply length_filter_zero, Forall_forall.
    intros z Hz ->. done.
  - apply IH. by apply elem_of_cons in Hx as [->|Hx].
Qed.

Lemma sorted_rows_lookup l i j a b :
  sorted_rows l → l !! i = Some a → l !! j = Some b → (i < j)%nat →
  key_le a b = true.
Proof.
  intros Hs. revert i j. induction Hs as [|x l Hl IH Hx]; intros i j Hi Hj Hij.
  - by rewrite lookup_nil in Hi.
  - destruct j as [|j]; [lia|]. destruct i as [|i]; simpl in *.
    + injection Hi as ->. rewrite Forall_forall in Hx. apply Hx.
      by eapply list_elem_of_lookup_2.
    + eapply IH; [done..|lia].
Qed.

(** Of two rows the query returns, the one created first in a project comes
    first. *)
Lemma selected_order ts i j a b :
  fetched ts !! i = Some a → fetched ts !! j = Some b →
  project_id a = project_id b → created_at a < created_at b →
  (i < j)%nat.
Proof.
  intros Hi Hj Hp Hc. destruct (lt_eq_lt_dec i j) as [[Hlt| ->]|Hgt]; [done| |].
  - rewrite Hi in Hj. injection Hj as ->. lia.
  - pose proof (sorted_rows_lookup _ _ _ _ _ (selected_sorted ts) Hj Hi Hgt) as H.
    apply key_le_spec in H. lia.
Qed.

Lemma select_tasks_lookup ts k t :
  fetched ts !! k = Some t →
  fetched_tasks ts !! k = Some (id t, project_id t).
Proof. intros H. unfold fetched_tasks. by rewrite list_lookup_fmap, H. Qed.

(** Two turns for the same project never compute the same number. *)
Lemma plan_key_inj ts j j' a a' :
  plan ts !! j = Some a → plan ts !! j' = Some a' →
  a_project_id a = a_project_id a' → a_sequence a = a_sequence a' → j = j'.
Proof.
  intros (t & Ht & ->)%plan_lookup_inv (t' & Ht' & ->)%plan_lookup_inv.
  simpl. intros Hp Hs. rewrite <- Hp in Hs.
  apply select_tasks_lookup in Ht, Ht'.
  destruct (lt_eq_lt_dec j j') as [[Hlt|Heq]|Hgt]; [|done|].
  - pose proof (occ_take_mono (project_id t) _ _ _ _ Hlt Ht eq_refl). lia.
  - pose proof (occ_take_mono (project_id t) _ _ _ _ Hgt Ht' (eq_sym Hp)). lia.
Qed.

Lemma deleted_id_not_selected ts t :
  NoDup (id <$> ts) → t ∈ ts → ¬ live t → id t ∉ id <$> fetched ts.
Proof.
  intros Hnd Ht Hdel (u & Hid & Hu)%list_elem_of_fmap.
  apply elem_of_selected in Hu as [Hu Hlive].
  by rewrite (NoDup_fmap_eq id ts t u Hnd Ht Hu Hid) in Hdel.
Qed.

(** ** The writes, row by row *)

Lemma apply_updates_stamp U ts : apply_updates U ts = stamp U <$> ts.
Proof.
  revert ts. induction U as [|a U IH]; intros ts; simpl.
  - unfold stamp. simpl. by rewrite list_fmap_id.
  - unfold apply_updates in *. simpl. rewrite IH.
    unfold apply_update, update_tasks. rewrite <- list_fmap_compose.
    by apply list_fmap_ext.
Qed.

Lemma stamp1_fixed t a : fixed_columns (stamp1 t a) = fixed_columns t.
Proof. unfold stamp1. by destruct (decide _). Qed.

Lemma stamp_fixed U t : fixed_columns (stamp U t) = fixed_columns t.
Proof.
  revert t. induction U as [|a U IH]; intros t; [done|].
  unfold stamp in *. simpl. by rewrite IH, stamp1_fixed.
Qed.

Lemma stamp_id U t : id (stamp U t) = id t.
Proof. pose proof (stamp_fixed U t) as H. by injection H. Qed.

Lemma stamp_project_id U t : project_id (stamp U t) = project_id t.
Proof. pose proof (stamp_fixed U t) as H. by injection H. Qed.

Lemma stamp_created_at U t : created_at (stamp U t) = created_at t.
Proof. pose proof (stamp_fixed U t) as H. by injection H. Qed.

Lemma stamp_deleted_at U t : deleted_at (stamp U t) = deleted_at t.
Proof. pose proof (stamp_fixed U t) as H. by injection H. Qed.

Lemma stamp_notin U t : id t ∉ a_task_id <$> U → stamp U t = t.
Proof.
  revert t. induction U as [|a U IH]; intros t Hn; [done|].
  rewrite fmap_cons, not_elem_of_cons in Hn. destruct Hn as [Hne Hn].
  unfold stamp in *. simpl. unfold stamp1 at 2.
  rewrite decide_False by done. by apply IH.
Qed.

Lemma stamp_in U t a :
  NoDup (a_task_id <$> U) → a ∈ U → id t = a_task_id a →
  stamp U t = set_sequence (a_sequence a) t.
Proof.
  revert t. induction U as [|b U IH]; intros t Hnd Ha Hid.
  - by apply elem_of_nil in Ha.
  - rewrite fmap_cons in Hnd. apply NoDup_cons in Hnd as [Hb Hnd].
    change (stamp (b :: U) t) with (stamp U (stamp1 t b)).
    apply elem_of_cons in Ha as [->|Ha].
    + unfold stamp1. rewrite decide_True by done.
      apply stamp_notin. simpl. by rewrite Hid.
    + unfold stamp1. rewrite decide_False; [by apply IH|].
      intros Heq. apply Hb, list_elem_of_fmap. exists a.
      split; [congruence|done].
Qed.

(** A row that is not deleted gets the number of its turn. *)
Lemma stamp_selected ts k t :
  NoDup (id <$> ts) → fetched ts !! k = Some t →
  stamp (plan ts) t
  = set_sequence (Z.of_nat (S (occ (project_id t) (take k (fetched_tasks ts))))) t.
Proof.
  intros Hnd Ht. pose proof (plan_lookup _ _ _ Ht) as Ha.
  apply (stamp_in _ _ _ ltac:(rewrite plan_ids; by apply NoDup_selected_ids)
            (list_elem_of_lookup_2 _ _ _ Ha) eq_refl).
Qed.

(** A deleted row is not written. *)
Lemma stamp_deleted ts t :
  NoDup (id <$> ts) → t ∈ ts → ¬ live t → stamp (plan ts) t = t.
Proof.
  intros Hnd Ht Hdel. apply stamp_notin. rewrite plan_ids.
  by apply deleted_id_not_selected.
Qed.

(** ** The loop *)

Lemma tally_empty : tally (λ _, 0%nat) ∅.
Proof. intros p. by rewrite lookup_empty. Qed.

Lemma tally_step cnt (ps : gmap Z Z) p :
  tally cnt ps →
  let ps' := match ps !! p with
             | None => <[p := 1]> ps
             | Some n => <[p := n + 1]> ps
             end in
  tally (bump p cnt) ps' ∧ ps' !! p = Some (Z.of_nat (S (cnt p))).
Proof.
  intros Ht. pose proof (Ht p) as Hp. simpl.
  assert (∀ v, v = Z.of_nat (S (cnt p)) →
               tally (bump p cnt) (<[p := v]> ps)
               ∧ <[p := v]> ps !! p = Some (Z.of_nat (S (cnt p)))) as Hgen.
  { intros v ->. split; [|by rewrite lookup_insert_eq].
    intros q. unfold bump. destruct (decide (q = p)) as [->|Hne].
    - by rewrite lookup_insert_eq.
    - rewrite lookup_insert_ne by done. apply Ht. }
  destruct (cnt p) as [|n] eqn:Hc; rewrite Hp; apply Hgen; lia.
Qed.

Section Loop.

Variable fault : nat → bool.

Lemma execute_update_eq s i w :
  execute_update fault s i w =
  let l := log w ++ [Exec (UpdateSeq s i)] in
  let rows' := update_tasks s i (rows (view w)) in
  if fault (calls w)
  then Raise OperationalError (mkConn (disk w) (txn w) (S (calls w)) l)
  else if task_project_sequence_idx (view w) && negb (unique_ok rows')
  then Raise IntegrityError (mkConn (disk w) (Some (view w)) (S (calls w)) l)
  else Ok () (mkConn (disk w)
                (Some (mkStore rows' (task_project_sequence_idx (view w))))
                (S (calls w)) l).
Proof.
  unfold execute_update, call, begin, read, write, raise, mbind, M_bind.
  unfold view. simpl. destruct (fault (calls w)); [done|]. simpl.
  by destruct (task_project_sequence_idx _ && _).
Qed.

Lemma after_loop_cons a U w s :
  s = mkStore (apply_update (rows (view w)) a)
              (task_project_sequence_idx (view w)) →
  after_loop U
    (mkConn (disk w) (Some s) (S (calls w))
       ((log w ++ [Exec (UpdateSeq (a_sequence a) (a_task_id a))])
        ++ [Print (TaskLine (a_task_id a) (a_project_id a) (a_sequence a))]))
  = after_loop (a :: U) w.
Proof.
  intros ->. unfold after_loop. simpl. f_equal.
  - by destruct U.
  - lia.
  - by rewrite <- !app_assoc.
Qed.

(** What the loop leaves behind, when it ends and when it raises. *)
Lemma assign_loop_spec tasks cnt ps w :
  tally cnt ps →
  match assign_loop fault tasks ps w with
  | Ok _ w' =>
      w' = after_loop (numbered cnt tasks) w
      ∧ (tasks ≠ [] → task_project_sequence_idx (view w) = true →
         unique_ok (rows (view w')) = true)
      ∧ (∀ k, (calls w ≤ k < calls w + length tasks)%nat → fault k = false)
  | Raise e w' =>
      disk w' = disk w ∧ e ≠ KeyError
      ∧ ∃ l, log w' = log w ++ l ∧ l `prefix_of` events_of (numbered cnt tasks)
  end.
Proof.
  revert cnt ps w. induction tasks as [|[i p] tasks IH]; intros cnt ps w Ht.
  - simpl. split; [|split; [done|intros k; lia]]. unfold after_loop. simpl.
    destruct w; simpl. f_equal; [lia|by rewrite app_nil_r].
  - destruct (tally_step _ _ p Ht) as [Ht' Hget]. simpl in Ht', Hget.
    cbn [assign_loop numbered].
    set (ps' := match ps !! p with
                | Some n => <[p:=n + 1]> ps
                | None => <[p:=1]> ps
                end) in *.
    set (a := mkAssign i p (Z.of_nat (S (cnt p)))).
    unfold mbind at 1, M_bind at 1, subscript. rewrite Hget.
    unfold mret at 1, M_ret at 1.
    unfold mbind at 1, M_bind at 1. rewrite execute_update_eq. cbv zeta.
    destruct (fault (calls w)) eqn:Hf.
    { simpl. split; [done|]. split; [done|]. eexists. split; [done|].
      by apply prefix_cons, prefix_nil. }
    destruct (task_project_sequence_idx (view w)
              && negb (unique_ok (update_tasks (Z.of_nat (S (cnt p))) i
                                    (rows (view w))))) eqn:Hu.
    { simpl. split; [done|]. split; [done|]. eexists. split; [done|].
      by apply prefix_cons, prefix_nil. }
    unfold mbind at 1, M_bind at 1, print at 1. cbn [disk txn calls log].
    match goal with |- match assign_loop _ _ _ ?c with _ => _ end =>
      set (w2 := c) end.
    specialize (IH (bump p cnt) ps' w2 Ht').
    destruct (assign_loop fault tasks ps' w2) as [ps'' w'|e w'].
    + destruct IH as (-> & IHu & IHf). split; [|split].
      * subst w2. by apply (after_loop_cons a).
      * intros _ Hidx. destruct tasks as [|r tasks].
        -- simpl. rewrite Hidx in Hu. simpl in Hu.
           by apply negb_false_iff in Hu.
        -- apply IHu; [done|]. subst w2. simpl. done.
      * intros k Hk. destruct (decide (k = calls w)) as [->|Hne]; [done|].
        apply IHf. subst w2. simpl in *. lia.
    + destruct IH as (Hd & He & l & Hl & Hp). split; [done|]. split; [done|].
      exists ([Exec (UpdateSeq (a_sequence a) (a_task_id a));
               Print (TaskLine (a_task_id a) (a_project_id a) (a_sequence a))]
              ++ l).
      split.
      * rewrite Hl. subst w2. simpl. by rewrite <- !app_assoc.
      * unfold events_of. rewrite bind_cons. by apply prefix_app.
Qed.

(** The loop ends when no call fails and no write breaks the index. *)
Lemma assign_loop_ok tasks cnt ps w :
  tally cnt ps →
  (∀ k, (calls w ≤ k < calls w + length tasks)%nat → fault k = false) →
  (task_project_sequence_idx (view w) = true →
   ∀ k, (k < length tasks)%nat →
     unique_ok (apply_updates (take (S k) (numbered cnt tasks))
                  (rows (view w))) = true) →
  ∃ ps', assign_loop fault tasks ps w
         = Ok ps' (after_loop (numbered cnt tasks) w).
Proof.
  revert cnt ps w. induction tasks as [|[i p] tasks IH]; intros cnt ps w Ht Hf Hu.
  - exists ps. pose proof (assign_loop_spec [] cnt ps w Ht) as H.
    simpl in *. destruct H as [H _]. by rewrite <- H.
  - destruct (tally_step _ _ p Ht) as [Ht' Hget]. simpl in Ht', Hget.
    cbn [assign_loop numbered].
    set (ps' := match ps !! p with
                | Some n => <[p:=n + 1]> ps
                | None => <[p:=1]> ps
                end) in *.
    set (a := mkAssign i p (Z.of_nat (S (cnt p)))).
    unfold mbind at 1, M_bind at 1, subscript. rewrite Hget.
    unfold mret at 1, M_ret at 1.
    unfold mbind at 1, M_bind at 1. rewrite execute_update_eq. cbv zeta.
    rewrite Hf by (simpl; lia).
    assert (task_project_sequence_idx (view w)
            && negb (unique_ok (update_tasks (Z.of_nat (S (cnt p))) i
                                  (rows (view w)))) = false) as ->.
    { destruct (task_project_sequence_idx (view w)) eqn:Hidx; [|done].
      simpl. apply negb_false_iff.
      apply (Hu eq_refl 0%nat). simpl. lia. }
    unfold mbind at 1, M_bind at 1, print at 1. cbn [disk txn calls log].
    match goal with |- ∃ _, assign_loop _ _ _ ?c = _ => set (w2 := c) end.
    destruct (IH (bump p cnt) ps' w2 Ht') as [ps'' Hps].
    + intros k Hk. apply Hf. subst w2. simpl in *. lia.
    + subst w2. simpl. intros Hidx k Hk.
      apply (Hu Hidx (S k)). simpl. lia.
    + exists ps''. rewrite Hps. f_equal. subst w2.
      by apply (after_loop_cons a).
Qed.

End Loop.

(** ** The steps around the loop *)

Lemma store_eta s : mkStore (rows s) (task_project_sequence_idx s) = s.
Proof. by destruct s. Qed.

Section Run.

Variable fault : nat → bool.

(** The index step outside a transaction, case by case. *)
Lemma create_unique_index_eq d c l :
  create_unique_index fault (mkConn d None c l) =
  let l1 := l ++ [Exec CreateIndex] in
  if fault c
  then Ok () (mkConn d None (S c) (l1 ++ [Print (IndexFailed OperationalError)]))
  else if task_project_sequence_idx d || unique_ok (rows d)
  then
    let d' := mkStore (rows d) true in
    let l2 := l1 ++ [Exec Commit] in
    if fault (S c)
    then Ok () (mkConn d' None (S (S c))
                  (l2 ++ [Print (IndexFailed OperationalError)]))
    else Ok () (mkConn d' None (S (S c)) (l2 ++ [Print IndexCreated]))
  else Ok () (mkConn d None (S c) (l1 ++ [Print (IndexFailed IntegrityError)])).
Proof.
  unfold create_unique_index, try_except, execute_create_index, commit, call,
    read, write, end_txn, raise, print, mbind, M_bind, mret, M_ret, view.
  simpl. destruct (fault c); [done|]. simpl.
  destruct d as [ts [|]]; simpl.
  - by destruct (fault (S c)).
  - destruct (unique_ok ts); simpl; [|done]. by destruct (fault (S c)).
Qed.

(** The whole script, with the loop and the index step left to their own
    lemmas. *)
Lemma run_unfold s :
  run fault s =
  let w1 := mkConn s None 1 [Exec SelectTasks] in
  if fault 0%nat then Raise OperationalError w1
  else
    match assign_loop fault (select_tasks s) ∅ w1 with
    | Raise e w' => Raise e w'
    | Ok _ w2 =>
        let l2 := log w2 ++ [Exec Commit] in
        if fault (calls w2)
        then Raise OperationalError (mkConn (disk w2) (txn w2) (S (calls w2)) l2)
        else
          match create_unique_index fault
                  (mkConn (view w2) None (S (calls w2)) l2) with
          | Raise e w' => Raise e w'
          | Ok _ w4 =>
              let l4 := log w4 ++ [Exec CountSeq] in
              if fault (calls w4)
              then Raise OperationalError
                     (mkConn (disk w4) (txn w4) (S (calls w4)) l4)
              else Ok () (mkConn (disk w4) (txn w4) (S (calls w4))
                            (l4 ++ [Print (CountLine
                                             (count_sequenced (rows (view w4))))]))
          end
    end.
Proof.
  unfold run, backfill, connect. unfold mbind at 1, M_bind at 1.
  unfold execute_select, call, read, mbind, M_bind, mret, M_ret. simpl.
  destruct (fault 0%nat); [done|]. simpl.
  change (view (mkConn s None 1 [Exec SelectTasks])) with s.
  destruct (assign_loop fault (select_tasks s) ∅
              (mkConn s None 1 [Exec SelectTasks])) as [ps w2|e w']; [|done].
  unfold commit, call, end_txn, mbind, M_bind. simpl.
  destruct (fault (calls w2)); [done|]. simpl.
  destruct (create_unique_index fault _) as [[] w4|e w']; [|done].
  unfold verify, execute_count, call, read, print, mbind, M_bind, mret, M_ret.
  simpl. by destruct (fault (calls w4)).
Qed.

End Run.

(** ** One run, case by case *)

Lemma view_after_loop U s c l :
  view (after_loop U (mkConn s None c l))
  = mkStore (apply_updates U (rows s)) (task_project_sequence_idx s).
Proof. destruct U; simpl; [by rewrite store_eta|done]. Qed.

Lemma log_after_loop U w : log (after_loop U w) = log w ++ events_of U.
Proof. done. Qed.

(** Splits a run into its cases: which call failed first, whether a write
    broke the index, and how the index step went. The loop's lemma is left
    as a hypothesis in each case. *)
Ltac run_cases fault s :=
  rewrite (run_unfold fault s); cbv zeta;
  let Hloop := fresh "Hloop" in
  pose proof (assign_loop_spec fault (select_tasks s) (λ _, 0%nat) ∅
                (mkConn s None 1 [Exec SelectTasks]) tally_empty) as Hloop;
  change (numbered (λ _, 0%nat) (select_tasks s)) with (plan (scan s)) in Hloop;
  destruct (fault 0%nat) eqn:?;
  [ | destruct (assign_loop fault (select_tasks s) ∅
                  (mkConn s None 1 [Exec SelectTasks])) as [? ?|? ?];
      [ destruct Hloop as (-> & ? & ?);
        rewrite ?view_after_loop;
        destruct (fault (calls (after_loop _ _))) eqn:?;
        [ | rewrite create_unique_index_eq; cbv zeta;
            destruct (fault (S (calls (after_loop _ _)))) eqn:?;
            [ | destruct (_ || unique_ok _) eqn:?;
                [ destruct (fault (S (S (calls (after_loop _ _))))) eqn:? | ] ];
            cbn beta iota; cbn [calls];
            match goal with
            | |- context [if fault ?c then _ else _] => destruct (fault c) eqn:?
            end ]
      | destruct Hloop as (? & ? & ? & ? & ?) ] ].

Lemma run_stored_rows fault s :
  rows (stored (run fault s)) = rows s
  ∨ rows (stored (run fault s)) = apply_updates (plan (scan s)) (rows s).
Proof.
  run_cases fault s.
  all: try (left; unfold stored; simpl in *; congruence).
  all: right; unfold stored; simpl; done.
Qed.

Lemma run_completed_rows fault s :
  completed (run fault s) →
  rows (stored (run fault s)) = apply_updates (plan (scan s)) (rows s).
Proof. run_cases fault s; simpl; done. Qed.

(** ** The history of a run *)

Lemma elem_of_events_of e U :
  e ∈ events_of U ↔
  ∃ a, a ∈ U
       ∧ (e = Exec (UpdateSeq (a_sequence a) (a_task_id a))
          ∨ e = Print (TaskLine (a_task_id a) (a_project_id a) (a_sequence a))).
Proof.
  unfold events_of. rewrite list_elem_of_bind.
  split; intros (a & H1 & H2); exists a.
  - rewrite !elem_of_cons, elem_of_nil in H1. tauto.
  - rewrite !elem_of_cons, elem_of_nil. tauto.
Qed.

Lemma updates_of_app l1 l2 : updates_of (l1 ++ l2) = updates_of l1 ++ updates_of l2.
Proof. apply omap_app. Qed.

Lemma updates_of_events_of U :
  updates_of (events_of U) = (λ a, (a_task_id a, a_sequence a)) <$> U.
Proof.
  induction U as [|a U IH]; [done|].
  unfold events_of in *. rewrite bind_cons, updates_of_app, IH. done.
Qed.

Lemma updates_of_prefix l1 l2 :
  l1 `prefix_of` l2 → updates_of l1 `prefix_of` updates_of l2.
Proof. intros [k ->]. rewrite updates_of_app. by eexists. Qed.

Lemma elem_of_updates_of i c l :
  (i, c) ∈ updates_of l ↔ Exec (UpdateSeq c i) ∈ l.
Proof.
  unfold updates_of. rewrite list_elem_of_omap. split.
  - intros (e & He & Heq). destruct e as [[| | | |]|]; try done.
    by injection Heq as -> ->.
  - intros H. by eexists.
Qed.

(** Every [UPDATE] a run sends, ended or not, is a turn of the plan, in the
    plan's order. *)
Lemma run_updates_prefix fault s :
  updates_of (output (run fault s))
  `prefix_of` (λ a, (a_task_id a, a_sequence a)) <$> plan (scan s).
Proof.
  rewrite <- updates_of_events_of.
  run_cases fault s; unfold output; simpl in *;
    rewrite ?log_after_loop; simpl.
  all: try match goal with
           | H : log _ = _ |- _ => rewrite H; simpl; by apply updates_of_prefix
           end.
  1: by apply prefix_nil.
  all: rewrite !updates_of_app; simpl; by rewrite ?app_nil_r.
Qed.

Lemma run_completed_updates fault s :
  completed (run fault s) →
  updates_of (output (run fault s))
  = (λ a, (a_task_id a, a_sequence a)) <$> plan (scan s).
Proof.
  rewrite <- updates_of_events_of.
  run_cases fault s; unfold output; simpl in *; try done; intros _;
    rewrite ?log_after_loop; simpl;
    rewrite !updates_of_app; simpl; by rewrite ?app_nil_r.
Qed.

Lemma events_of_kind e U :
  e ∈ events_of U →
  match e with
  | Exec (UpdateSeq _ _) | Print (TaskLine _ _ _) => True
  | _ => False
  end.
Proof. intros (a & _ & [-> | ->])%elem_of_events_of; done. Qed.


(** Membership in a history that is written out. *)
Ltac log_norm :=
  repeat (rewrite elem_of_cons || rewrite elem_of_app || rewrite elem_of_nil).

Ltac log_norm_in H :=
  repeat (rewrite elem_of_cons in H || rewrite elem_of_app in H
          || rewrite elem_of_nil in H).

Ltac or_search := solve [ reflexivity | left; or_search | right; or_search ].

Ltac log_in := log_norm; or_search.

Ltac log_absurd H :=
  exfalso; log_norm_in H;
  repeat match type of H with _ ∨ _ => destruct H as [H|H] end;
  try discriminate; try contradiction.

(** The index step never raises, whatever the connection is in. *)
Lemma create_unique_index_total fault w :
  ∃ w', create_unique_index fault w = Ok () w'.
Proof.
  unfold create_unique_index, try_except, execute_create_index, commit, call,
    read, write, end_txn, raise, print, mbind, M_bind, mret, M_ret.
  simpl. destruct (fault (calls w)); [by eexists|]. simpl.
  destruct (task_project_sequence_idx _); simpl.
  - destruct (fault (S (calls w))); by eexists.
  - destruct (unique_ok _); simpl; [|by eexists].
    destruct (txn w); simpl; destruct (fault (S (calls w))); by eexists.
Qed.

Lemma reported_cons_snoc x l c :
  reported (x :: l ++ [Print (CountLine c)]) = Some c.
Proof.
  unfold reported. change (x :: l ++ [Print (CountLine c)])
    with ((x :: l) ++ [Print (CountLine c)]).
  rewrite omap_app. simpl. apply last_snoc.
Qed.

Lemma run_completed_report fault s :
  completed (run fault s) →
  reported (output (run fault s))
  = Some (count_sequenced (rows (stored (run fault s)))).
Proof.
  run_cases fault s; unfold output, stored; simpl; try done; intros _;
    apply reported_cons_snoc.
Qed.

(** ** Counting *)

(** A row that is not deleted carries a number once the plan has been
    applied. *)
Lemma stamp_live ts t :
  NoDup (id <$> ts) → t ∈ ts → live t →
  ∃ k, fetched ts !! k = Some t
       ∧ stamp (plan ts) t
         = set_sequence
             (Z.of_nat (S (occ (project_id t) (take k (fetched_tasks ts))))) t.
Proof.
  intros Hnd Ht Hl.
  assert (t ∈ fetched ts) as [k Hk]%list_elem_of_lookup
    by by apply elem_of_selected.
  exists k. split; [done|]. by apply stamp_selected.
Qed.

Lemma count_after_plan ts :
  NoDup (id <$> ts) →
  count_sequenced (apply_updates (plan ts) ts)
  = Z.of_nat (length (filter live ts))
    + Z.of_nat (length (filter (λ t, ¬ live t ∧ is_Some (project_sequence t)) ts)).
Proof.
  intros Hnd. unfold count_sequenced. rewrite apply_updates_stamp.
  rewrite (length_filter_fmap_iff _ _
             (λ t, live t ∨ is_Some (project_sequence t))).
  - rewrite length_filter_or. lia.
  - intros t Ht. destruct (decide (live t)) as [Hl|Hl].
    + destruct (stamp_live ts t Hnd Ht Hl) as (k & _ & ->). simpl.
      split; [by left|by eexists].
    + rewrite (stamp_deleted ts t Hnd Ht Hl). tauto.
Qed.

(** ** Rows of one project in the query result *)

Lemma occ_zero p (l : list (Z * Z)) :
  occ p l = 0%nat ↔ ∀ r, r ∈ l → r.2 ≠ p.
Proof. unfold occ. by rewrite length_filter_zero, Forall_forall. Qed.

(** When row [j] is the last row of project [p] before row [k], the count
    at [k] is one more than the count at [j]. *)
Lemma occ_take_next p (tasks : list (Z * Z)) j k i' :
  (j < k)%nat → tasks !! j = Some (i', p) →
  (∀ m r, (j < m < k)%nat → tasks !! m = Some r → r.2 ≠ p) →
  occ p (take k tasks) = S (occ p (take j tasks)).
Proof.
  intros Hjk Hj Hbetween.
  rewrite <- (take_drop (S j) (take k tasks)), take_take, Nat.min_l by lia.
  rewrite (take_S_r _ _ _ Hj), !occ_app, occ_cons, occ_nil.
  rewrite decide_True by done.
  assert (occ p (drop (S j) (take k tasks)) = 0%nat) as ->; [|lia].
  apply occ_zero. intros r [m Hm]%list_elem_of_lookup.
  rewrite lookup_drop in Hm. apply lookup_take_Some in Hm as [Hm Hlt].
  eapply Hbetween; [|done]. lia.
Qed.

(** Along the query result, the rows of project [p] carry consecutive
    numbers after the plan has been applied. *)
Lemma selected_project_sequences ts p pre suf :
  NoDup (id <$> ts) → fetched ts = pre ++ suf →
  project_sequence ∘ stamp (plan ts) <$> filter (λ t, project_id t = p) suf
  = Some ∘ Z.of_nat
      <$> seq (S (length (filter (λ t, project_id t = p) pre)))
              (length (filter (λ t, project_id t = p) suf)).
Proof.
  intros Hnd. revert pre. induction suf as [|t suf IH]; intros pre Hsel; [done|].
  assert (fetched ts !! length pre = Some t) as Ht.
  { rewrite Hsel. by apply list_lookup_middle. }
  assert (take (length pre) (fetched_tasks ts)
          = (λ t, (id t, project_id t)) <$> pre) as Htake.
  { unfold fetched_tasks. rewrite Hsel, fmap_app.
    apply take_app_length'. by rewrite length_fmap. }
  assert (∀ q, occ q ((λ t, (id t, project_id t)) <$> pre)
               = length (filter (λ t, project_id t = q) pre)) as Hocc.
  { intros q. unfold occ. by apply length_filter_fmap_iff. }
  specialize (IH (pre ++ [t])). rewrite <- app_assoc in IH.
  specialize (IH Hsel). rewrite filter_app, length_app in IH.
  rewrite filter_cons. destruct (decide (project_id t = p)) as [Hp|Hp].
  - rewrite filter_cons_True in IH by done. simpl in IH.
    rewrite fmap_cons. simpl. f_equal.
    + rewrite (stamp_selected ts _ t Hnd Ht), Htake, Hocc, Hp. done.
    + rewrite IH. do 2 f_equal. lia.
  - rewrite filter_cons_False in IH by done. simpl in IH.
    rewrite IH. do 2 f_equal. lia.
Qed.

Lemma live_in_stamp U p t : live_in p (stamp U t) ↔ live_in p t.
Proof. unfold live_in, live. by rewrite stamp_project_id, stamp_deleted_at. Qed.

(** The numbers stored for the rows of project [p] that are not deleted
    are 1 to their count, each once. *)
Lemma project_sequences_after_plan ts p :
  NoDup (id <$> ts) →
  project_sequence <$> filter (live_in p) (apply_updates (plan ts) ts)
  ≡ₚ Some <$> seqZ 1 (Z.of_nat (length (filter (live_in p) ts))).
Proof.
  intros Hnd. rewrite apply_updates_stamp.
  rewrite (filter_fmap_iff _ _ (live_in p)) by apply live_in_stamp.
  assert (filter (live_in p) ts
          ≡ₚ filter (λ t, project_id t = p) (fetched ts)) as Hperm.
  { rewrite selected_perm. by rewrite list_filter_filter. }
  rewrite Hperm, <- list_fmap_compose.
  rewrite (selected_project_sequences ts p [] (fetched ts) Hnd eq_refl).
  simpl. rewrite list_fmap_compose.
  by rewrite (seq_seqZ 0).
Qed.

(** ** When the run ends normally *)

Lemma stamp_take_key ts m x z :
  NoDup (id <$> ts) → x ∈ ts → project_sequence x = None →
  index_key (stamp (take m (plan ts)) x) = Some z →
  ∃ j a, plan ts !! j = Some a ∧ a_task_id a = id x
         ∧ z = (a_project_id a, a_sequence a).
Proof.
  intros Hnd Hx Hnone Hz.
  destruct (decide (id x ∈ a_task_id <$> take m (plan ts))) as [Hin|Hout].
  - apply list_elem_of_fmap in Hin as (a & Hid & Ha).
    assert (NoDup (a_task_id <$> take m (plan ts))) as Hnd'.
    { rewrite fmap_take. eapply sublist_NoDup; [|apply sublist_take].
      rewrite plan_ids. by apply NoDup_selected_ids. }
    rewrite (stamp_in _ x a Hnd' Ha Hid) in Hz.
    apply elem_of_take in Ha as (j & Hj & _). exists j, a.
    split; [done|]. split; [done|].
    destruct (plan_lookup_inv _ _ _ Hj) as (t & Ht & ->). simpl in *.
    assert (t ∈ ts) as Hts.
    { apply (elem_of_selected t ts). by eapply list_elem_of_lookup_2. }
    rewrite (NoDup_fmap_eq id ts x t Hnd Hx Hts Hid) in Hz.
    unfold index_key in Hz. simpl in Hz. by injection Hz as <-.
  - rewrite (stamp_notin _ x Hout) in Hz. unfold index_key in Hz.
    by rewrite Hnone in Hz.
Qed.

(** From a table without numbers, no turn of the loop breaks the index. *)
Lemma unique_ok_prefix ts m :
  NoDup (id <$> ts) → Forall (λ t, project_sequence t = None) ts →
  unique_ok (apply_updates (take m (plan ts)) ts) = true.
Proof.
  intros Hnd Hnone. rewrite Forall_forall in Hnone.
  unfold unique_ok. apply bool_decide_eq_true.
  unfold index_keys. rewrite apply_updates_stamp.
  apply NoDup_omap_fmap; [by eapply NoDup_fmap_1|].
  intros x y z Hx Hy Hzx Hzy.
  destruct (stamp_take_key ts m x z Hnd Hx (Hnone x Hx) Hzx)
    as (j & a & Hj & Hida & ->).
  destruct (stamp_take_key ts m y _ Hnd Hy (Hnone y Hy) Hzy)
    as (j' & a' & Hj' & Hida' & [= Hp Hs]).
  assert (j = j') as -> by (eapply plan_key_inj; done).
  apply (NoDup_fmap_eq id ts x y Hnd Hx Hy). congruence.
Qed.

Lemma run_no_faults_completed s :
  (task_project_sequence_idx s = true →
   ∀ k, (k < length (select_tasks s))%nat →
        unique_ok (apply_updates (take (S k) (plan (scan s))) (rows s)) = true) →
  completed (run no_faults s).
Proof.
  intros Hu. rewrite run_unfold. cbv zeta.
  destruct (assign_loop_ok no_faults (select_tasks s) (λ _, 0%nat) ∅
              (mkConn s None 1 [Exec SelectTasks]) tally_empty)
    as [ps Hps]; [done|exact Hu|].
  rewrite Hps. change (no_faults _) with false. cbn beta iota.
  rewrite view_after_loop, create_unique_index_eq. cbv zeta.
  change (no_faults _) with false. cbn beta iota.
  by destruct (_ || _).
Qed.

(** ** Running again *)

Lemma insert_row_fmap (f : Task → Task) t l :
  (∀ a b, key_le (f a) (f b) = key_le a b) →
  insert_row (f t) (f <$> l) = f <$> insert_row t l.
Proof.
  intros Hf. induction l as [|u l IH]; [done|].
  rewrite fmap_cons. cbn [insert_row]. rewrite Hf.
  destruct (key_le t u); [done|]. by rewrite fmap_cons, IH.
Qed.

Lemma order_by_fmap (f : Task → Task) l :
  (∀ a b, key_le (f a) (f b) = key_le a b) →
  order_by (f <$> l) = f <$> order_by l.
Proof.
  intros Hf. induction l as [|t l IH]; [done|].
  change (order_by (f <$> t :: l)) with (insert_row (f t) (order_by (f <$> l))).
  change (order_by (t :: l)) with (insert_row t (order_by l)).
  rewrite IH. by apply insert_row_fmap.
Qed.

(** The query does not read [project_sequence]: it returns the same rows
    after the plan has been applied as before. *)
Lemma select_tasks_stamp U ts : fetched_tasks (stamp U <$> ts) = fetched_tasks ts.
Proof.
  unfold fetched_tasks, fetched.
  rewrite (filter_fmap_iff (stamp U) live live).
  - rewrite order_by_fmap.
    + rewrite <- list_fmap_compose. apply list_fmap_ext. intros _ t _. simpl.
      by rewrite stamp_id, stamp_project_id.
    + intros a b. unfold key_le.
      by rewrite !stamp_project_id, !stamp_created_at.
  - intros t. unfold live. by rewrite stamp_deleted_at.
Qed.

Lemma plan_stamp U ts : plan (stamp U <$> ts) = plan ts.
Proof. unfold plan. by rewrite select_tasks_stamp. Qed.

(** Applying once more a part of a plan that has been applied changes
    nothing. *)
Lemma stamp_again U U' t :
  NoDup (a_task_id <$> U) → U' ⊆ U → stamp U' (stamp U t) = stamp U t.
Proof.
  intros Hnd. induction U' as [|a U' IH]; intros Hsub; [done|].
  change (stamp (a :: U') (stamp U t)) with (stamp U' (stamp1 (stamp U t) a)).
  assert (stamp1 (stamp U t) a = stamp U t) as ->.
  { unfold stamp1. rewrite stamp_id. destruct (decide (id t = a_task_id a)) as [Hid|]; [|done].
    assert (a ∈ U) as Ha by (apply Hsub; left).
    by rewrite (stamp_in U t a Hnd Ha Hid). }
  apply IH. intros b Hb. apply Hsub. by right.
Qed.

Lemma apply_updates_again sc ts m :
  NoDup (id <$> sc) →
  apply_updates (take m (plan sc)) (apply_updates (plan sc) ts)
  = apply_updates (plan sc) ts.
Proof.
  intros Hnd. rewrite !apply_updates_stamp, <- list_fmap_compose.
  apply list_fmap_ext. intros _ t _. simpl. apply stamp_again.
  - rewrite plan_ids. by apply NoDup_selected_ids.
  - intros a Ha. eapply elem_of_prefix; [done|apply prefix_take].
Qed.

Section Again.

Variable fault : nat → bool.

(** What the index step leaves on disk. *)
Lemma create_unique_index_disk d c l w4 :
  create_unique_index fault (mkConn d None c l) = Ok () w4 →
  rows (disk w4) = rows d ∧ txn w4 = None
  ∧ (task_project_sequence_idx (disk w4) = true →
     task_project_sequence_idx d = true ∨ unique_ok (rows d) = true).
Proof.
  rewrite create_unique_index_eq. cbv zeta.
  destruct (fault c); [intros [= <-]; simpl; auto|].
  destruct (task_project_sequence_idx d) eqn:Hi; simpl.
  - destruct (fault (S c)); intros [= <-]; simpl; auto.
  - destruct (unique_ok (rows d)).
    + destruct (fault (S c)); intros [= <-]; simpl; auto.
    + intros [= <-]. simpl. rewrite Hi. by repeat split.
Qed.

(** The index step, taken again from the store it left, ends the same. *)
Lemma create_unique_index_again d c l w4 :
  create_unique_index fault (mkConn d None c l) = Ok () w4 →
  create_unique_index fault (mkConn (disk w4) None c l) = Ok () w4.
Proof.
  rewrite !create_unique_index_eq. cbv zeta.
  destruct (fault c); [by intros [= <-]|].
  destruct (task_project_sequence_idx d) eqn:Hi; simpl.
  - destruct (fault (S c)); by intros [= <-].
  - destruct (unique_ok (rows d)) eqn:Hu.
    + destruct (fault (S c)); by intros [= <-].
    + intros [= <-]. simpl. by rewrite Hi, Hu.
Qed.

Lemma run_completed_inv s :
  completed (run fault s) →
  let w1 := mkConn s None 1 [Exec SelectTasks] in
  let w2 := after_loop (plan (scan s)) w1 in
  fault 0%nat = false
  ∧ (∀ k, (1 ≤ k < 1 + length (select_tasks s))%nat → fault k = false)
  ∧ (select_tasks s ≠ [] → task_project_sequence_idx s = true →
     unique_ok (apply_updates (plan (scan s)) (rows s)) = true)
  ∧ fault (calls w2) = false
  ∧ ∃ w4,
      create_unique_index fault
        (mkConn (view w2) None (S (calls w2)) (log w2 ++ [Exec Commit]))
      = Ok () w4
      ∧ fault (calls w4) = false
      ∧ run fault s
        = Ok () (mkConn (disk w4) (txn w4) (S (calls w4))
                   ((log w4 ++ [Exec CountSeq])
                    ++ [Print (CountLine (count_sequenced (rows (view w4))))])).
Proof.
  rewrite run_unfold. cbv zeta.
  pose proof (assign_loop_spec fault (select_tasks s) (λ _, 0%nat) ∅
                (mkConn s None 1 [Exec SelectTasks]) tally_empty) as Hloop.
  change (numbered (λ _, 0%nat) (select_tasks s)) with (plan (scan s)) in Hloop.
  destruct (fault 0%nat); [done|].
  destruct (assign_loop fault _ _ _) as [ps w2|e w']; [|done].
  destruct Hloop as (-> & Hu & Hf).
  destruct (fault (calls (after_loop _ _))) eqn:Hc; [done|].
  destruct (create_unique_index fault _) as [[] w4|e w'] eqn:Hidx; [|done].
  destruct (fault (calls w4)) eqn:Hv; [done|]. intros _.
  split; [done|]. split; [exact Hf|]. split.
  { intros Hne Hi. specialize (Hu Hne Hi).
    by rewrite view_after_loop in Hu. }
  split; [done|]. exists w4. done.
Qed.

Lemma run_completed_intro s w4 :
  let w1 := mkConn s None 1 [Exec SelectTasks] in
  let w2 := after_loop (plan (scan s)) w1 in
  fault 0%nat = false →
  (∀ k, (1 ≤ k < 1 + length (select_tasks s))%nat → fault k = false) →
  (task_project_sequence_idx s = true →
   ∀ k, (k < length (select_tasks s))%nat →
     unique_ok (apply_updates (take (S k) (plan (scan s))) (rows s)) = true) →
  fault (calls w2) = false →
  create_unique_index fault
    (mkConn (view w2) None (S (calls w2)) (log w2 ++ [Exec Commit]))
  = Ok () w4 →
  fault (calls w4) = false →
  run fault s
  = Ok () (mkConn (disk w4) (txn w4) (S (calls w4))
             ((log w4 ++ [Exec CountSeq])
              ++ [Print (CountLine (count_sequenced (rows (view w4))))])).
Proof.
  intros w1 w2 H0 Hf Hu Hc Hidx Hv. rewrite run_unfold. cbv zeta.
  rewrite H0.
  destruct (assign_loop_ok fault (select_tasks s) (λ _, 0%nat) ∅
              w1 tally_empty Hf Hu) as [ps Hps].
  change (numbered (λ _, 0%nat) (select_tasks s)) with (plan (scan s)) in Hps. fold w1. rewrite Hps. fold w2.
  by rewrite Hc, Hidx, Hv.
Qed.

End Again.

(** ** The scan order *)

Lemma insert_entry_perm t l : insert_entry t l ≡ₚ t :: l.
Proof.
  induction l as [|u l IH]; simpl; [done|].
  destruct (entry_le t u); [done|].
  rewrite IH. apply Permutation_swap.
Qed.

Lemma index_scan_perm l : index_scan l ≡ₚ l.
Proof.
  induction l as [|t l IH]; simpl; [done|].
  rewrite insert_entry_perm. by rewrite IH.
Qed.

(** Whatever the order, the engine reads every row once. *)
Lemma scan_perm s : scan s ≡ₚ rows s.
Proof. unfold scan. destruct (task_project_sequence_idx s); [apply index_scan_perm|done]. Qed.

Lemma NoDup_scan_ids s : NoDup (id <$> rows s) → NoDup (id <$> scan s).
Proof. by rewrite scan_perm. Qed.

Lemma elem_of_scan t s : t ∈ scan s ↔ t ∈ rows s.
Proof. by rewrite scan_perm. Qed.

Lemma elem_of_selected_rows t s : t ∈ selected s ↔ t ∈ rows s ∧ live t.
Proof.
  unfold selected. fold (fetched (scan s)).
  by rewrite elem_of_selected, elem_of_scan.
Qed.

Lemma stamp_live_rows s t :
  NoDup (id <$> rows s) → t ∈ rows s → live t →
  ∃ k, selected s !! k = Some t
       ∧ stamp (plan (scan s)) t
         = set_sequence
             (Z.of_nat (S (occ (project_id t) (take k (select_tasks s))))) t.
Proof.
  intros Hnd Ht Hl.
  apply (stamp_live (scan s) t); [by apply NoDup_scan_ids|by apply elem_of_scan|done].
Qed.

Lemma stamp_deleted_rows s t :
  NoDup (id <$> rows s) → t ∈ rows s → ¬ live t →
  stamp (plan (scan s)) t = t.
Proof.
  intros Hnd Ht Hl.
  apply stamp_deleted; [by apply NoDup_scan_ids|by apply elem_of_scan|done].
Qed.

Lemma deleted_id_not_selected_rows s t :
  NoDup (id <$> rows s) → t ∈ rows s → ¬ live t →
  id t ∉ a_task_id <$> plan (scan s).
Proof.
  intros Hnd Ht Hl. rewrite plan_ids.
  apply deleted_id_not_selected;
    [by apply NoDup_scan_ids|by apply elem_of_scan|done].
Qed.

Lemma count_after_plan_rows s :
  NoDup (id <$> rows s) →
  count_sequenced (apply_updates (plan (scan s)) (rows s))
  = Z.of_nat (length (filter live (rows s)))
    + Z.of_nat (length (filter (λ t, ¬ live t ∧ is_Some (project_sequence t))
                          (rows s))).
Proof.
  intros Hnd. pose proof (count_after_plan (scan s) (NoDup_scan_ids s Hnd)) as H.
  unfold count_sequenced in *. rewrite apply_updates_stamp in *.
  set (U := plan (scan s)) in *. by rewrite !(scan_perm s) in H.
Qed.

Lemma project_sequences_after_plan_rows s p :
  NoDup (id <$> rows s) →
  project_sequence <$> filter (live_in p) (apply_updates (plan (scan s)) (rows s))
  ≡ₚ Some <$> seqZ 1 (Z.of_nat (length (filter (live_in p) (rows s)))).
Proof.
  intros Hnd.
  pose proof (project_sequences_after_plan (scan s) p (NoDup_scan_ids s Hnd)) as H.
  rewrite apply_updates_stamp in *.
  set (U := plan (scan s)) in *. by rewrite !(scan_perm s) in H.
Qed.

Lemma unique_ok_perm l l' : l ≡ₚ l' → unique_ok l = unique_ok l'.
Proof.
  intros H. unfold unique_ok, index_keys. apply bool_decide_ext. by rewrite H.
Qed.

Lemma unique_ok_prefix_rows s m :
  NoDup (id <$> rows s) → Forall (λ t, project_sequence t = None) (rows s) →
  unique_ok (apply_updates (take m (plan (scan s))) (rows s)) = true.
Proof.
  intros Hnd Hnone.
  rewrite <- (unique_ok_prefix (scan s) m).
  - rewrite !apply_updates_stamp. apply unique_ok_perm.
    set (U := plan (scan s)). by rewrite (scan_perm s).
  - by apply NoDup_scan_ids.
  - by rewrite scan_perm.
Qed.

(** ** The query after a run *)

Lemma null_first_le_false x y :
  null_first_le x y = false → null_first_le y x = true.
Proof. destruct x, y; simpl; try done. rewrite Z.leb_gt, Z.leb_le. lia. Qed.

Lemma null_first_le_trans x y z :
  null_first_le x y = true → null_first_le y z = true →
  null_first_le x z = true.
Proof. destruct x, y, z; simpl; try done. rewrite !Z.leb_le. lia. Qed.

Lemma null_first_le_antisym x y :
  null_first_le x y = true → null_first_le y x = true → x = y.
Proof.
  destruct x, y; simpl; try done. rewrite !Z.leb_le. intros. f_equal. lia.
Qed.

Lemma entry_le_spec a b :
  entry_le a b = true ↔
  project_id a < project_id b
  ∨ (project_id a = project_id b
     ∧ null_first_le (project_sequence a) (project_sequence b) = true).
Proof.
  unfold entry_le. by rewrite orb_true_iff, andb_true_iff, Z.ltb_lt, Z.eqb_eq.
Qed.

Lemma entry_le_false a b : entry_le a b = false → entry_le b a = true.
Proof.
  intros H. apply entry_le_spec.
  apply not_true_iff_false in H. rewrite entry_le_spec in H.
  destruct (Z.lt_trichotomy (project_id a) (project_id b)) as [?|[Heq|?]];
    [tauto| |by left].
  right. split; [done|]. apply null_first_le_false.
  apply not_true_iff_false. tauto.
Qed.

Lemma entry_le_trans a b c :
  entry_le a b = true → entry_le b c = true → entry_le a c = true.
Proof.
  rewrite !entry_le_spec. intros [?|[? Hab]] [?|[? Hbc]];
    [left; lia..|]. right. split; [lia|]. by eapply null_first_le_trans.
Qed.

Lemma insert_entry_sorted t l :
  StronglySorted (λ a b, entry_le a b = true) l →
  StronglySorted (λ a b, entry_le a b = true) (insert_entry t l).
Proof.
  induction 1 as [|u l Hl IH Hu]; simpl.
  - repeat constructor.
  - destruct (entry_le t u) eqn:E.
    + constructor; [by constructor|].
      constructor; [done|].
      eapply Forall_impl; [exact Hu|]. intros c Hc. by eapply entry_le_trans.
    + constructor; [done|].
      rewrite insert_entry_perm. constructor; [|done]. by apply entry_le_false.
Qed.

(** The walk along the index is in the order of its entries. *)
Lemma index_scan_sorted l :
  StronglySorted (λ a b, entry_le a b = true) (index_scan l).
Proof.
  induction l as [|t l IH]; simpl; [constructor|]. by apply insert_entry_sorted.
Qed.

Lemma StronglySorted_filter_keep {A} (R : relation A) (P : A → Prop)
    `{!∀ x, Decision (P x)} (l : list A) :
  StronglySorted R l → StronglySorted R (filter P l).
Proof.
  induction 1 as [|x l Hl IH Hx]; [constructor|].
  rewrite filter_cons. destruct (decide (P x)); [|done].
  constructor; [done|]. rewrite Forall_forall in *.
  intros y [_ Hy]%list_elem_of_filter. by apply Hx.
Qed.

Lemma StronglySorted_of_lookup {A} (R : relation A) (l : list A) :
  (∀ i j a b, (i < j)%nat → l !! i = Some a → l !! j = Some b → R a b) →
  StronglySorted R l.
Proof.
  induction l as [|x l IH]; intros H; [constructor|]. constructor.
  - apply IH. intros i j a b Hij Hi Hj. apply (H (S i) (S j)); [lia|done..].
  - apply Forall_forall. intros y [k Hk]%list_elem_of_lookup.
    apply (H 0%nat (S k)); [lia|done..].
Qed.

Lemma insert_row_lex t m :
  StronglySorted lex_le m → Forall (λ u, entry_le t u = true) m →
  StronglySorted lex_le (insert_row t m).
Proof.
  induction 1 as [|u m Hm IH Hu]; intros He; simpl.
  - repeat constructor.
  - apply Forall_cons in He as [Heu Hem].
    destruct (key_le t u) eqn:E.
    + constructor; [by constructor|]. constructor; [by split|].
      rewrite Forall_forall in *. intros v Hv. destruct (Hu v Hv) as [Huv _].
      split; [by eapply key_le_trans|]. intros _. by apply Hem.
    + constructor; [by apply IH|].
      rewrite insert_row_perm. constructor; [|done].
      split; [by apply key_le_false|]. intros Htu. congruence.
Qed.

(** A sort that keeps ties in place, on rows that come in index order,
    breaks the ties of the [ORDER BY] by the index entry. *)
Lemma order_by_lex l :
  StronglySorted (λ a b, entry_le a b = true) l →
  StronglySorted lex_le (order_by l).
Proof.
  induction 1 as [|t l Hl IH Ht]; [constructor|].
  change (order_by (t :: l)) with (insert_row t (order_by l)).
  apply insert_row_lex; [done|]. by rewrite order_by_perm.
Qed.

Lemma fetched_stamp U ts : fetched (stamp U <$> ts) = stamp U <$> fetched ts.
Proof.
  unfold fetched. rewrite (filter_fmap_iff (stamp U) live live).
  - apply order_by_fmap. intros a b. unfold key_le.
    by rewrite !stamp_project_id, !stamp_created_at.
  - intros t. unfold live. by rewrite stamp_deleted_at.
Qed.

Lemma fetched_lookup_stamp sc x :
  NoDup (id <$> sc) → x ∈ stamp (plan sc) <$> fetched sc →
  ∃ k t a, fetched sc !! k = Some t ∧ plan sc !! k = Some a
           ∧ project_id x = a_project_id a
           ∧ project_sequence x = Some (a_sequence a)
           ∧ x = set_sequence (a_sequence a) t.
Proof.
  intros Hnd (t & -> & [k Hk]%list_elem_of_lookup)%list_elem_of_fmap.
  exists k, t. eexists. split; [done|]. split; [by apply plan_lookup|].
  rewrite (stamp_selected sc k t Hnd Hk). done.
Qed.

(** The rows a run has numbered come back along the index in the order in
    which the run went through them. *)
Lemma fetched_index_scan_stamp sc ts :
  sc ≡ₚ ts → NoDup (id <$> sc) →
  fetched (index_scan (stamp (plan sc) <$> ts)) = stamp (plan sc) <$> fetched sc.
Proof.
  intros Hperm Hnd.
  assert (fetched (index_scan (stamp (plan sc) <$> ts))
          ≡ₚ stamp (plan sc) <$> fetched sc) as HP.
  { unfold fetched at 1. rewrite order_by_perm, index_scan_perm, <- Hperm.
    rewrite (filter_fmap_iff (stamp (plan sc)) live live).
    - by rewrite <- selected_perm.
    - intros t. unfold live. by rewrite stamp_deleted_at. }
  apply (StronglySorted_unique_strong lex_le); [| | |done].
  - intros x1 x2 Hx1 Hx2 [H12 E12] [H21 E21]. rewrite HP in Hx1.
    destruct (fetched_lookup_stamp sc x1 Hnd Hx1)
      as (k1 & t1 & a1 & Ht1 & Ha1 & Hp1 & Hs1 & ->).
    destruct (fetched_lookup_stamp sc x2 Hnd Hx2)
      as (k2 & t2 & a2 & Ht2 & Ha2 & Hp2 & Hs2 & ->).
    specialize (E12 H21). specialize (E21 H12).
    apply entry_le_spec in E12, E21. rewrite Hs1, Hs2, Hp1, Hp2 in *.
    assert (a_project_id a1 = a_project_id a2) as Hp by lia.
    assert (Some (a_sequence a1) = Some (a_sequence a2)) as [= Hs].
    { apply null_first_le_antisym; [destruct E12 as [?|[_ ?]]|
                                    destruct E21 as [?|[_ ?]]]; done || lia. }
    assert (k1 = k2) as -> by (eapply plan_key_inj; done).
    congruence.
  - unfold fetched at 1.
    apply order_by_lex, StronglySorted_filter_keep, index_scan_sorted.
  - apply StronglySorted_of_lookup. intros i j x y Hij Hi Hj.
    rewrite list_lookup_fmap in Hi, Hj.
    destruct (fetched sc !! i) as [a|] eqn:Ha; [|done].
    destruct (fetched sc !! j) as [b|] eqn:Hb; [|done].
    injection Hi as <-. injection Hj as <-.
    rewrite (stamp_selected sc i a Hnd Ha), (stamp_selected sc j b Hnd Hb).
    pose proof (sorted_rows_lookup _ _ _ _ _ (selected_sorted sc) Ha Hb Hij)
      as Hab.
    split; [exact Hab|]. intros Hba.
    change (key_le b a = true) in Hba.
    apply key_le_spec in Hab, Hba.
    assert (project_id a = project_id b) as Hp by lia.
    pose proof (occ_take_mono (project_id a) _ _ _ _ Hij
                  (select_tasks_lookup _ _ _ Ha) eq_refl) as Hocc.
    apply entry_le_spec. right. split; [done|]. simpl.
    rewrite <- Hp. apply Z.leb_le. lia.
Qed.

(** The first query gives the same result on the store a run has left as it
    gave to that run, whether or not the index is there by then. *)
Lemma select_tasks_after_plan s idx :
  NoDup (id <$> rows s) →
  (idx = false → task_project_sequence_idx s = false) →
  select_tasks (mkStore (apply_updates (plan (scan s)) (rows s)) idx)
  = select_tasks s.
Proof.
  intros Hnd Hidx. unfold select_tasks, selected, scan at 1. simpl.
  rewrite apply_updates_stamp. destruct idx.
  - fold (fetched (index_scan (stamp (plan (scan s)) <$> rows s))).
    rewrite (fetched_index_scan_stamp (scan s) (rows s) (scan_perm s)
               (NoDup_scan_ids s Hnd)).
    rewrite <- list_fmap_compose. apply list_fmap_ext. intros _ t _. simpl.
    by rewrite stamp_id, stamp_project_id.
  - fold (fetched (stamp (plan (scan s)) <$> rows s)).
    rewrite fetched_stamp, <- list_fmap_compose.
    unfold scan at 2. rewrite (Hidx eq_refl).
    apply list_fmap_ext. intros _ t _. simpl.
    by rewrite stamp_id, stamp_project_id.
Qed.

Lemma create_unique_index_keeps fault d c l w4 :
  create_unique_index fault (mkConn d None c l) = Ok () w4 →
  task_project_sequence_idx d = true →
  task_project_sequence_idx (disk w4) = true.
Proof.
  rewrite create_unique_index_eq. cbv zeta. intros H Hi. rewrite Hi in H.
  simpl in H. destruct (fault c); [by injection H as <-|].
  destruct (fault (S c)); by injection H as <-.
Qed.

(** * The claims *)

(** C9. A run changes no column but [project_sequence]: whatever the run
    does, and however it ends, the stored table has the same rows in the same
    places with the same [id], [project_id], [created_at] and [deleted_at];
    no row is inserted or removed. *)
Theorem run_preserves_other_columns fault s :
  fixed_columns <$> rows (stored (run fault s)) = fixed_columns <$> rows s
  ∧ length (rows (stored (run fault s))) = length (rows s).
Proof.
  assert (fixed_columns <$> rows (stored (run fault s))
          = fixed_columns <$> rows s) as H.
  { destruct (run_stored_rows fault s) as [->| ->]; [done|].
    rewrite apply_updates_stamp, <- list_fmap_compose.
    apply list_fmap_ext. intros _ t _. apply stamp_fixed. }
  split; [done|]. apply (f_equal length) in H. by rewrite !length_fmap in H.
Qed.

(** C4. If the run ends in an error and the commit was never sent, so that
    the error came from the select or from one of the updates, the stored
    table is what it was before the run. *)
Theorem error_before_commit_leaves_store fault s e :
  raised (run fault s) = Some e →
  Exec Commit ∉ output (run fault s) →
  stored (run fault s) = s.
Proof.
  run_cases fault s; unfold output, stored; simpl in *; intros Hr Hc.
  all: try done.
  all: exfalso; apply Hc; rewrite ?log_after_loop; simpl; log_in.
Qed.

Lemma error_before_commit_leaves_store_witness :
  raised (run (fail_at 2) example_store) = Some OperationalError
  ∧ stored (run (fail_at 2) example_store) = example_store.
Proof.
  split; [vm_compute; reflexivity|].
  apply (error_before_commit_leaves_store (fail_at 2) example_store
           OperationalError).
  - vm_compute. reflexivity.
  - apply (bool_decide_unpack _). vm_compute. exact I.
Defined.



(** C10. The last query counts every row whose [project_sequence] is not
    NULL, deleted or not. After a run that ends normally the count printed is
    the number of such rows in the stored table; a deleted row is stored as
    it was, so one that held a number before the run is counted; the count is
    the number of rows that are not deleted plus the number of deleted rows
    that held a number. It is the number of rows that are not deleted when
    every [project_sequence] was NULL before the run, and in general exactly
    when no deleted row held a number. *)
Theorem verification_counts_all_sequenced fault s :
  NoDup (id <$> rows s) →
  completed (run fault s) →
  reported (output (run fault s))
  = Some (count_sequenced (rows (stored (run fault s))))
  ∧ (∀ k t, rows s !! k = Some t → ¬ live t →
            rows (stored (run fault s)) !! k = Some t)
  ∧ count_sequenced (rows (stored (run fault s)))
    = Z.of_nat (length (filter live (rows s)))
      + Z.of_nat (length (filter (λ t, ¬ live t ∧ is_Some (project_sequence t))
                            (rows s)))
  ∧ (Forall (λ t, project_sequence t = None) (rows s) →
     reported (output (run fault s))
     = Some (Z.of_nat (length (filter live (rows s)))))
  ∧ (reported (output (run fault s))
     = Some (Z.of_nat (length (filter live (rows s))))
     ↔ Forall (λ t, ¬ live t → project_sequence t = None) (rows s)).
Proof.
  intros Hnd Hdone.
  pose proof (run_completed_report fault s Hdone) as Hrep.
  pose proof (run_completed_rows fault s Hdone) as Hrows.
  pose proof (count_after_plan_rows s Hnd) as Hcount.
  rewrite <- Hrows in Hcount.
  assert (reported (output (run fault s))
          = Some (Z.of_nat (length (filter live (rows s))))
          ↔ Forall (λ t, ¬ live t → project_sequence t = None) (rows s)) as Hiff.
  { rewrite Hrep, Hcount.
    transitivity (length (filter (λ t, ¬ live t ∧ is_Some (project_sequence t))
                            (rows s)) = 0%nat).
    - split; [intros [= H]; lia|intros ->; f_equal; lia].
    - rewrite length_filter_zero. apply Forall_proper; [|done].
      intros t. rewrite eq_None_not_Some. tauto. }
  split; [done|]. split; [|split; [done|split; [|done]]].
  - intros k t Hk Hdel. rewrite Hrows, apply_updates_stamp, list_lookup_fmap, Hk.
    simpl. f_equal. apply stamp_deleted_rows; [done| |done].
    by eapply list_elem_of_lookup_2.
  - intros Hnone. apply Hiff. eapply Forall_impl; [exact Hnone|]. by intros t ->.
Qed.

Lemma verification_counts_all_sequenced_witness :
  reported (output (run no_faults conflict_store)) = Some 3
  ∧ filter live (rows conflict_store) = [mkTask 3 7 30 None None].
Proof.
  split; [|vm_compute; reflexivity].
  assert (NoDup (id <$> rows conflict_store)) as Hnd.
  { apply (bool_decide_unpack _). vm_compute. exact I. }
  assert (completed (run no_faults conflict_store)) as Hdone.
  { vm_compute. exact I. }
  destruct (verification_counts_all_sequenced no_faults conflict_store Hnd Hdone)
    as (Hrep & _).
  rewrite Hrep. vm_compute. reflexivity.
Defined.

(** C6. A deleted task is never written: in no run, ended or not, is an
    [UPDATE] sent for its [id], and the stored row is the row as it was. *)
Theorem deleted_tasks_not_written fault s k t :
  NoDup (id <$> rows s) →
  rows s !! k = Some t →
  deleted_at t ≠ None →
  (∀ sequence, Exec (UpdateSeq sequence (id t)) ∉ output (run fault s))
  ∧ rows (stored (run fault s)) !! k = Some t.
Proof.
  intros Hnd Hk Hdel.
  assert (t ∈ rows s) as Ht by by eapply list_elem_of_lookup_2.
  split.
  - intros c Hc. apply elem_of_updates_of in Hc.
    eapply elem_of_prefix in Hc; [|apply run_updates_prefix].
    apply list_elem_of_fmap in Hc as (a & [= Hid _] & Ha).
    apply (deleted_id_not_selected_rows s t Hnd Ht Hdel).
    rewrite Hid. by apply list_elem_of_fmap_2.
  - destruct (run_stored_rows fault s) as [->| ->]; [done|].
    rewrite apply_updates_stamp, list_lookup_fmap, Hk. simpl. f_equal.
    by apply stamp_deleted_rows.
Qed.

Lemma deleted_tasks_not_written_witness :
  (∀ sequence, Exec (UpdateSeq sequence 15) ∉ output (run no_faults example_store))
  ∧ rows (stored (run no_faults example_store)) !! 2%nat
    = Some (mkTask 15 7 50 (Some 99) None).
Proof.
  apply (deleted_tasks_not_written no_faults example_store 2
           (mkTask 15 7 50 (Some 99) None)).
  - apply (bool_decide_unpack _). vm_compute. exact I.
  - reflexivity.
  - simpl. discriminate.
Defined.

(** C2. Within a project, numbers follow creation time: of two tasks of the
    same project that are not deleted, the one created strictly earlier has
    the strictly smaller number in its [project_sequence] column in the
    table a run that ends normally has stored; the rows are the same tasks,
    at their places, with their other columns as before. *)
Theorem sequence_follows_creation_time fault s i j a b :
  NoDup (id <$> rows s) →
  completed (run fault s) →
  rows s !! i = Some a → rows s !! j = Some b →
  deleted_at a = None → deleted_at b = None →
  project_id a = project_id b →
  created_at a < created_at b →
  ∃ a' b' x y,
    rows (stored (run fault s)) !! i = Some a'
    ∧ rows (stored (run fault s)) !! j = Some b'
    ∧ fixed_columns a' = fixed_columns a
    ∧ fixed_columns b' = fixed_columns b
    ∧ project_sequence a' = Some x
    ∧ project_sequence b' = Some y
    ∧ x < y.
Proof.
  intros Hnd Hdone Hi Hj Hla Hlb Hp Hc.
  rewrite (run_completed_rows fault s Hdone), apply_updates_stamp.
  rewrite !list_lookup_fmap, Hi, Hj. simpl.
  destruct (stamp_live_rows s a Hnd (list_elem_of_lookup_2 _ _ _ Hi) Hla)
    as (ka & Hka & Hsa).
  destruct (stamp_live_rows s b Hnd (list_elem_of_lookup_2 _ _ _ Hj) Hlb)
    as (kb & Hkb & Hsb).
  eexists _, _, _, _. split; [done|]. split; [done|].
  split; [apply stamp_fixed|]. split; [apply stamp_fixed|].
  split; [by rewrite Hsa|]. split; [by rewrite Hsb|].
  pose proof (selected_order _ _ _ _ _ Hka Hkb Hp Hc) as Hlt.
  pose proof (occ_take_mono (project_id a) _ _ _ _ Hlt
                (select_tasks_lookup _ _ _ Hka) eq_refl) as Hocc.
  change (fetched_tasks (scan s)) with (select_tasks s) in Hocc.
  rewrite <- Hp. lia.
Qed.

Lemma sequence_follows_creation_time_witness :
  (project_sequence <$> rows (stored (run no_faults example_store)) !! 4%nat
   = Some (Some 1)
   ∧ project_sequence <$> rows (stored (run no_faults example_store)) !! 0%nat
     = Some (Some 2))
  ∧ ∃ a' b' x y,
      rows (stored (run no_faults example_store)) !! 4%nat = Some a'
      ∧ rows (stored (run no_faults example_store)) !! 0%nat = Some b'
      ∧ fixed_columns a' = fixed_columns (mkTask 11 7 10 None None)
      ∧ fixed_columns b' = fixed_columns (mkTask 12 7 20 None None)
      ∧ project_sequence a' = Some x
      ∧ project_sequence b' = Some y
      ∧ x < y.
Proof.
  split; [split; vm_compute; reflexivity|].
  apply (sequence_follows_creation_time no_faults example_store 4 0).
  - apply (bool_decide_unpack _). vm_compute. exact I.
  - vm_compute. exact I.
  - reflexivity.
  - reflexivity.
  - reflexivity.
  - reflexivity.
  - reflexivity.
  - simpl. lia.
Defined.

(** C3. The loop goes through the query result once. After a run that ends
    normally the [UPDATE]s sent are, in order, one for each row of the
    result, keyed by that row's [id]; the number is 1 for the first row seen
    of a project, and one more than the number of the previous row of the
    same project for every later one. With unique ids the row receives that
    number: it is what the stored table holds in the row's
    [project_sequence]; and exactly one [UPDATE] is sent for every task that
    is not deleted. *)
Theorem loop_numbers_rows_in_scan_order fault s :
  completed (run fault s) →
  let tasks := select_tasks s in
  let ups := updates_of (output (run fault s)) in
  length ups = length tasks
  ∧ (∀ k i p, tasks !! k = Some (i, p) →
       ∃ c, ups !! k = Some (i, c)
            ∧ ((∀ j r, (j < k)%nat → tasks !! j = Some r → r.2 ≠ p) → c = 1)
            ∧ (∀ j i' c', (j < k)%nat → tasks !! j = Some (i', p) →
                 (∀ m r, (j < m < k)%nat → tasks !! m = Some r → r.2 ≠ p) →
                 ups !! j = Some (i', c') → c = c' + 1)
            ∧ (NoDup (id <$> rows s) →
               ∃ j t, rows s !! j = Some t
                      ∧ id t = i ∧ project_id t = p ∧ deleted_at t = None
                      ∧ project_sequence <$> rows (stored (run fault s)) !! j
                        = Some (Some c)))
  ∧ (NoDup (id <$> rows s) →
     ∀ t, t ∈ rows s → live t →
          length (filter (λ u, u.1 = id t) ups) = 1%nat).
Proof.
  intros Hdone tasks ups.
  assert (ups = (λ a, (a_task_id a, a_sequence a)) <$> plan (scan s)) as Hups
    by by apply run_completed_updates.
  assert (∀ k i p, tasks !! k = Some (i, p) →
            ups !! k = Some (i, Z.of_nat (S (occ p (take k tasks))))) as Hat.
  { intros k i p Hk. rewrite Hups, list_lookup_fmap.
    assert (plan (scan s) !! k
            = Some (mkAssign i p (Z.of_nat (S (occ p (take k tasks)))))) as ->.
    { apply numbered_lookup. simpl. done. }
    done. }
  split; [|split].
  - rewrite Hups, length_fmap. unfold plan. apply numbered_length.
  - intros k i p Hk. eexists. split; [by apply Hat|]. split; [|split].
    + intros Hfirst.
      assert (occ p (take k tasks) = 0%nat) as ->; [|done].
      apply occ_zero. intros r [m Hm]%list_elem_of_lookup.
      apply lookup_take_Some in Hm as [Hm Hlt]. by eapply Hfirst.
    + intros j i' c' Hjk Hj Hbetween Hc'.
      rewrite (Hat _ _ _ Hj) in Hc'. injection Hc' as <-.
      rewrite (occ_take_next p tasks j k i' Hjk Hj Hbetween). lia.
    + intros Hnd. unfold tasks, select_tasks in Hk.
      rewrite list_lookup_fmap in Hk.
      destruct (selected s !! k) as [t|] eqn:Ht; [|done].
      injection Hk as <- <-.
      assert (t ∈ selected s) as Hin by by eapply list_elem_of_lookup_2.
      apply elem_of_selected_rows in Hin as [[j Hj]%list_elem_of_lookup Hl].
      exists j, t. split; [done|]. split; [done|]. split; [done|]. split; [done|].
      rewrite (run_completed_rows _ _ Hdone), apply_updates_stamp.
      rewrite list_lookup_fmap, Hj. simpl.
      by rewrite (stamp_selected (scan s) k t (NoDup_scan_ids s Hnd) Ht).
  - intros Hnd t Ht Hl.
    rewrite <- (length_filter_fmap_iff fst (λ x, x = id t) (λ u, u.1 = id t))
      by done.
    assert (ups.*1 = id <$> selected s) as ->.
    { rewrite Hups, <- list_fmap_compose.
      change (id <$> selected s) with (id <$> fetched (scan s)).
      by rewrite <- plan_ids. }
    apply length_filter_eq_NoDup.
    + by apply (NoDup_selected_ids (scan s)), NoDup_scan_ids.
    + apply list_elem_of_fmap_2. by apply elem_of_selected_rows.
Qed.

Lemma loop_numbers_rows_in_scan_order_witness :
  (updates_of (output (run no_faults example_store))
   = [(11, 1); (12, 2); (13, 3); (14, 1)]
   ∧ project_sequence <$> rows (stored (run no_faults example_store))
     = [Some 2; Some 1; None; Some 3; Some 1])
  ∧ length (updates_of (output (run no_faults example_store)))
    = length (select_tasks example_store)
  ∧ ∃ c, updates_of (output (run no_faults example_store)) !! 1%nat
         = Some (12, c)
         ∧ ∃ j t, rows example_store !! j = Some t
                  ∧ id t = 12 ∧ project_id t = 7 ∧ deleted_at t = None
                  ∧ project_sequence
                      <$> rows (stored (run no_faults example_store)) !! j
                    = Some (Some c).
Proof.
  split; [split; vm_compute; reflexivity|].
  assert (completed (run no_faults example_store)) as Hdone
    by (vm_compute; exact I).
  assert (NoDup (id <$> rows example_store)) as Hnd.
  { apply (bool_decide_unpack _). vm_compute. exact I. }
  destruct (loop_numbers_rows_in_scan_order no_faults example_store Hdone)
    as (Hlen & Hturn & _).
  split; [exact Hlen|].
  destruct (Hturn 1%nat 12 7 eq_refl) as (c & Hc & _ & _ & Hrow).
  exists c. split; [exact Hc|]. exact (Hrow Hnd).
Defined.

(** C1. On a table whose tasks have unique ids and no number yet, a run
    that no call into the engine fails ends normally; and after any run that
    ends normally, for every project, the numbers stored for its tasks that
    are not deleted are 1, 2, ..., N, each exactly once, where N is the
    number of those tasks. *)
Theorem backfill_assigns_one_to_n s :
  NoDup (id <$> rows s) →
  Forall (λ t, project_sequence t = None) (rows s) →
  completed (run no_faults s)
  ∧ ∀ fault p,
      completed (run fault s) →
      project_sequence <$> filter (live_in p) (rows (stored (run fault s)))
      ≡ₚ Some <$> seqZ 1 (Z.of_nat (length (filter (live_in p) (rows s)))).
Proof.
  intros Hnd Hnone. split.
  - apply run_no_faults_completed. intros _ k _. by apply unique_ok_prefix_rows.
  - intros fault p Hdone. rewrite (run_completed_rows fault s Hdone).
    by apply project_sequences_after_plan_rows.
Qed.

Lemma backfill_assigns_one_to_n_witness :
  completed (run no_faults example_store)
  ∧ project_sequence
      <$> filter (live_in 7) (rows (stored (run no_faults example_store)))
    ≡ₚ [Some 1; Some 2; Some 3].
Proof.
  assert (NoDup (id <$> rows example_store)) as Hnd.
  { apply (bool_decide_unpack _). vm_compute. exact I. }
  assert (Forall (λ t, project_sequence t = None) (rows example_store)) as Hnone.
  { apply (bool_decide_unpack _). vm_compute. exact I. }
  destruct (backfill_assigns_one_to_n example_store Hnd Hnone) as [Hdone Hperm].
  split; [exact Hdone|]. exact (Hperm no_faults 7 Hdone).
Defined.

(** C7. A second run on the store a first run left, under the same
    conditions, is the first run again: it sends the same [UPDATE]s, prints
    the same lines with the same count, and leaves the same store. Under any
    conditions, a second run that ends normally sends the same [UPDATE]s,
    leaves the same rows and reports the same count. *)
Theorem rerun_reproduces_first_run fault s :
  NoDup (id <$> rows s) →
  completed (run fault s) →
  run fault (stored (run fault s)) = run fault s
  ∧ ∀ fault',
      completed (run fault' (stored (run fault s))) →
      updates_of (output (run fault' (stored (run fault s))))
      = updates_of (output (run fault s))
      ∧ rows (stored (run fault' (stored (run fault s))))
        = rows (stored (run fault s))
      ∧ reported (output (run fault' (stored (run fault s))))
        = reported (output (run fault s)).
Proof.
  intros Hnd Hdone.
  destruct (run_completed_inv fault s Hdone)
    as (H0 & Hf & Hu & Hc & w4 & Hidx & Hv & Hrun).
  rewrite view_after_loop in Hidx.
  destruct (create_unique_index_disk _ _ _ _ _ Hidx) as (Hr4 & _ & Hi4).
  pose proof (create_unique_index_keeps _ _ _ _ _ Hidx) as Hkeep.
  simpl in Hr4, Hi4, Hkeep.
  assert (stored (run fault s) = disk w4) as Hst by by rewrite Hrun.
  rewrite Hst.
  assert (select_tasks (disk w4) = select_tasks s) as Hsel.
  { rewrite <- (store_eta (disk w4)), Hr4.
    apply select_tasks_after_plan; [done|]. intros Hb.
    destruct (task_project_sequence_idx s); [|done].
    by rewrite Hkeep in Hb. }
  assert (plan (scan (disk w4)) = plan (scan s)) as Hplan.
  { change (numbered (λ _, 0%nat) (select_tasks (disk w4))
            = numbered (λ _, 0%nat) (select_tasks s)). by rewrite Hsel. }
  assert (∀ m, apply_updates (take m (plan (scan s))) (rows (disk w4))
               = rows (disk w4)) as Hagain.
  { intros m. rewrite Hr4. by apply apply_updates_again, NoDup_scan_ids. }
  pose proof (Hagain (length (plan (scan s)))) as Hall.
  rewrite firstn_all in Hall.
  split.
  - rewrite Hrun.
    apply run_completed_intro; rewrite ?Hplan, ?Hsel; try done.
    + intros Hi k Hk. rewrite Hagain, Hr4.
      destruct (Hi4 Hi) as [Hi0|Hu0]; [|done].
      apply Hu; [|done]. intros Hnil. rewrite Hnil in Hk. simpl in Hk. lia.
    + rewrite view_after_loop.
      rewrite Hall, store_eta.
      apply create_unique_index_again in Hidx. exact Hidx.
  - intros fault' Hdone'.
    rewrite (run_completed_updates _ _ Hdone'), (run_completed_updates _ _ Hdone).
    rewrite !(run_completed_report _ _ Hdone'), !(run_completed_report _ _ Hdone).
    by rewrite (run_completed_rows _ _ Hdone'), Hst, Hplan, Hall.
Qed.

Lemma rerun_reproduces_first_run_witness :
  (select_tasks tied_store = [(2, 7); (1, 7)]
   ∧ updates_of (output (run no_faults tied_store)) = [(2, 1); (1, 2)])
  ∧ run no_faults (stored (run no_faults tied_store))
    = run no_faults tied_store.
Proof.
  split; [split; vm_compute; reflexivity|].
  apply (rerun_reproduces_first_run no_faults tied_store).
  - apply (bool_decide_unpack _). vm_compute. exact I.
  - vm_compute. exact I.
Defined.

(** C8. The worked example: three tasks of project 7 created at
    [t1 < t2 < t3], one task of project 9, and a deleted task of project 7,
    none with a number yet, stored in any order. A run that no call fails
    ends normally; it numbers the tasks of project 7 with 1, 2, 3 in the
    order of creation and the task of project 9 with 1, and the deleted task
    is stored as it was, without a number. *)
Theorem worked_example t1 t2 t3 t4 t5 idx ts :
  t1 < t2 → t2 < t3 →
  ts ≡ₚ example_rows t1 t2 t3 t4 t5 →
  completed (run no_faults (mkStore ts idx))
  ∧ updates_of (output (run no_faults (mkStore ts idx)))
    = [(11, 1); (12, 2); (13, 3); (14, 1)]
  ∧ rows (stored (run no_faults (mkStore ts idx)))
    ≡ₚ example_result t1 t2 t3 t4 t5.
Proof.
  intros H12 H23 Hperm.
  assert (NoDup (id <$> ts)) as Hnd.
  { rewrite Hperm. apply (bool_decide_unpack _). vm_compute. exact I. }
  assert (Forall (λ t, project_sequence t = None) ts) as Hnone.
  { rewrite Hperm. by repeat constructor. }
  assert (completed (run no_faults (mkStore ts idx))) as Hdone.
  { apply run_no_faults_completed. intros _ k _.
    by apply unique_ok_prefix_rows. }
  pose proof (scan_perm (mkStore ts idx)) as Hsc. simpl in Hsc.
  set (sc := scan (mkStore ts idx)) in *.
  assert (fetched sc
          = [ mkTask 11 7 t1 None None; mkTask 12 7 t2 None None;
              mkTask 13 7 t3 None None; mkTask 14 9 t4 None None ]) as Hsel.
  { apply (StronglySorted_unique_strong (λ a b, key_le a b = true)).
    - intros x1 x2 Hx1 Hx2. rewrite !key_le_spec.
      apply elem_of_selected in Hx1 as [Hx1 Hl1]. rewrite Hsc, Hperm in Hx1.
      unfold example_rows in Hx1.
      repeat (apply elem_of_cons in Hx1 as [->|Hx1]); [..|by apply elem_of_nil in Hx1];
        try discriminate Hl1;
        repeat (apply elem_of_cons in Hx2 as [->|Hx2]);
        try (by apply elem_of_nil in Hx2); simpl; intros; try done; lia.
    - apply selected_sorted.
    - repeat constructor; apply key_le_spec; simpl; lia.
    - rewrite selected_perm, Hsc, Hperm. unfold example_rows.
      rewrite !filter_cons, filter_nil. simpl. solve_Permutation. }
  assert (plan sc = [ mkAssign 11 7 1; mkAssign 12 7 2;
                      mkAssign 13 7 3; mkAssign 14 9 1 ]) as Hplan.
  { unfold plan, fetched_tasks. rewrite Hsel. reflexivity. }
  split; [done|]. split.
  - rewrite (run_completed_updates _ _ Hdone). fold sc. by rewrite Hplan.
  - rewrite (run_completed_rows _ _ Hdone). fold sc. simpl.
    rewrite Hplan, apply_updates_stamp, Hperm. reflexivity.
Qed.

Lemma worked_example_witness :
  completed (run no_faults example_store)
  ∧ updates_of (output (run no_faults example_store))
    = [(11, 1); (12, 2); (13, 3); (14, 1)]
  ∧ rows (stored (run no_faults example_store))
    ≡ₚ example_result 10 20 30 40 50.
Proof.
  apply (worked_example 10 20 30 40 50 true (example_rows 10 20 30 40 50)).
  - lia.
  - lia.
  - reflexivity.
Defined.

(** * Further properties of the script *)

(** ** The query *)

(** X1. The first query returns every row that is not deleted exactly once
    and no other row, in nondecreasing order of [(project_id, created_at)]. *)
Theorem query_returns_live_rows_in_order s :
  selected s ≡ₚ filter live (rows s)
  ∧ sorted_rows (selected s)
  ∧ select_tasks s = (λ t, (id t, project_id t)) <$> selected s.
Proof.
  split; [|split; [|done]].
  - rewrite <- (scan_perm s).
    unfold selected. induction (filter live (scan s)) as [|t l IH]; [done|].
    change (order_by (t :: l)) with (insert_row t (order_by l)).
    by rewrite insert_row_perm, IH.
  - unfold selected.
    induction (filter live (scan s)) as [|t l IH]; [constructor|].
    change (order_by (t :: l)) with (insert_row t (order_by l)).
    by apply insert_row_sorted.
Qed.

(** ** The loop *)

Lemma occ_select_tasks ts p :
  occ p (fetched_tasks ts) = length (filter (live_in p) ts).
Proof.
  unfold occ, fetched_tasks.
  rewrite (length_filter_fmap_iff _ _ (λ t, project_id t = p)) by done.
  assert (filter (λ t, project_id t = p) (fetched ts) ≡ₚ filter (live_in p) ts)
    as ->; [|done].
  rewrite selected_perm. by rewrite list_filter_filter.
Qed.

Lemma occ_take_le p (tasks : list (Z * Z)) k :
  (occ p (take k tasks) ≤ occ p tasks)%nat.
Proof.
  rewrite <- (take_drop k tasks) at 2. rewrite occ_app. lia.
Qed.

(** X2. Every [UPDATE] a run sends, whether the run ends or not, is for the
    [id] of a task that is not deleted, and its number lies between 1 and
    the number of tasks of that task's project that are not deleted. *)
Theorem updates_stay_in_range fault s c i :
  Exec (UpdateSeq c i) ∈ output (run fault s) →
  ∃ t, t ∈ rows s ∧ live t ∧ id t = i
       ∧ 1 ≤ c ≤ Z.of_nat (length (filter (live_in (project_id t)) (rows s))).
Proof.
  intros Hc. apply elem_of_updates_of in Hc.
  eapply elem_of_prefix in Hc; [|apply run_updates_prefix].
  apply list_elem_of_fmap in Hc as (a & [= -> ->] & Ha).
  apply list_elem_of_lookup in Ha as [k Hk].
  apply plan_lookup_inv in Hk as (t & Ht & ->). simpl.
  exists t.
  assert (t ∈ selected s) as Hsel by by eapply list_elem_of_lookup_2.
  apply elem_of_selected_rows in Hsel as [Hin Hlive].
  split; [done|]. split; [done|]. split; [done|].
  rewrite <- (scan_perm s), <- occ_select_tasks.
  change (fetched_tasks (scan s)) with (select_tasks s).
  pose proof (occ_take_mono (project_id t) (select_tasks s) k (S k)
                _ (Nat.lt_succ_diag_r k) (select_tasks_lookup _ _ _ Ht) eq_refl).
  pose proof (occ_take_le (project_id t) (select_tasks s) (S k)).
  lia.
Qed.

Lemma updates_stay_in_range_witness :
  ∃ t, t ∈ rows example_store ∧ live t ∧ id t = 13
       ∧ 1 ≤ 3 ≤ Z.of_nat (length (filter (live_in (project_id t))
                                       (rows example_store))).
Proof.
  apply (updates_stay_in_range no_faults example_store 3 13).
  apply (bool_decide_unpack _). vm_compute. exact I.
Defined.

Section LoopMore.

Variable fault : nat → bool.

(** The dictionary the loop returns holds the counts of the rows it went
    through. *)
Lemma assign_loop_tally tasks cnt ps w ps' w' :
  tally cnt ps →
  assign_loop fault tasks ps w = Ok ps' w' →
  tally (λ p, (cnt p + occ p tasks)%nat) ps'.
Proof.
  revert cnt ps w. induction tasks as [|[i p] tasks IH]; intros cnt ps w Ht.
  - simpl. intros [= <- _] q. rewrite occ_nil, Nat.add_0_r. apply Ht.
  - destruct (tally_step _ _ p Ht) as [Ht' Hget]. simpl in Ht', Hget.
    cbn [assign_loop].
    set (ps1 := match ps !! p with
                | Some n => <[p:=n + 1]> ps
                | None => <[p:=1]> ps
                end) in *.
    unfold mbind at 1, M_bind at 1, subscript. rewrite Hget.
    unfold mret at 1, M_ret at 1.
    unfold mbind at 1, M_bind at 1. rewrite execute_update_eq. cbv zeta.
    destruct (fault (calls w)); [done|].
    destruct (task_project_sequence_idx (view w) && _); [done|].
    unfold mbind at 1, M_bind at 1, print at 1. cbn [disk txn calls log].
    intros Hrest. specialize (IH _ _ _ Ht' Hrest).
    intros q. specialize (IH q). rewrite occ_cons. unfold bump in IH.
    destruct (decide (q = p)) as [->|Hne].
    + rewrite decide_True by done.
      by replace (cnt p + (1 + occ p tasks))%nat
        with (S (cnt p) + occ p tasks)%nat by lia.
    + by rewrite decide_False by done.
Qed.

(** The loop raises only what the engine raises: a failing call, or a
    write that the index refuses. *)
Lemma assign_loop_raise_kind tasks cnt ps w e w' :
  tally cnt ps →
  assign_loop fault tasks ps w = Raise e w' →
  (e = OperationalError ∧ ∃ k, fault k = true)
  ∨ (e = IntegrityError ∧ task_project_sequence_idx (view w) = true).
Proof.
  revert cnt ps w. induction tasks as [|[i p] tasks IH]; intros cnt ps w Ht.
  - done.
  - destruct (tally_step _ _ p Ht) as [Ht' Hget]. simpl in Ht', Hget.
    cbn [assign_loop].
    set (ps1 := match ps !! p with
                | Some n => <[p:=n + 1]> ps
                | None => <[p:=1]> ps
                end) in *.
    unfold mbind at 1, M_bind at 1, subscript. rewrite Hget.
    unfold mret at 1, M_ret at 1.
    unfold mbind at 1, M_bind at 1. rewrite execute_update_eq. cbv zeta.
    destruct (fault (calls w)) eqn:Hf.
    { intros [= <- _]. left. split; [done|]. by eexists. }
    destruct (task_project_sequence_idx (view w)) eqn:Hi; simpl.
    + destruct (unique_ok _); simpl.
      * unfold mbind at 1, M_bind at 1, print at 1. cbn [disk txn calls log].
        intros Hrest. destruct (IH _ _ _ Ht' Hrest) as [?|[? _]]; auto.
      * intros [= <- _]. by right.
    + unfold mbind at 1, M_bind at 1, print at 1. cbn [disk txn calls log].
      intros Hrest. destruct (IH _ _ _ Ht' Hrest) as [?|[_ Hi']]; [auto|].
      unfold view in Hi'. simpl in Hi'. done.
Qed.

(** X3. When the loop ends, its dictionary has a key for exactly the
    projects of the rows it went through, and maps each to the number of
    those rows. *)
Theorem loop_dictionary_counts_rows tasks w ps w' :
  assign_loop fault tasks ∅ w = Ok ps w' →
  ∀ p, ps !! p = if decide (occ p tasks = 0%nat) then None
                 else Some (Z.of_nat (occ p tasks)).
Proof.
  intros Hloop p.
  pose proof (assign_loop_tally tasks _ _ _ _ _ tally_empty Hloop p) as H.
  simpl in H. rewrite H.
  destruct (occ p tasks); [by rewrite decide_True|by rewrite decide_False].
Qed.

End LoopMore.

Lemma loop_dictionary_counts_rows_witness :
  ({[ 7 := 2; 9 := 1 ]} : gmap Z Z) !! 7
  = if decide (occ 7 [(1, 7); (3, 9); (2, 7)] = 0%nat) then None
    else Some (Z.of_nat (occ 7 [(1, 7); (3, 9); (2, 7)])).
Proof.
  eapply (loop_dictionary_counts_rows no_faults [(1, 7); (3, 9); (2, 7)]
            (connect (mkStore [] false))).
  vm_compute. reflexivity.
Defined.

(** ** Errors *)

(** X4. A run raises only what the engine raises. It never fails on the
    dictionary lookup; an operational error needs a call that fails; and an
    integrity error comes from a write in the loop, before the commit, on a
    table that had the index when the run began. *)
Theorem run_error_kinds fault s e :
  raised (run fault s) = Some e →
  (e = OperationalError ∧ ∃ k, fault k = true)
  ∨ (e = IntegrityError ∧ task_project_sequence_idx s = true
     ∧ Exec Commit ∉ output (run fault s)).
Proof.
  pose proof (λ e w', assign_loop_raise_kind fault (select_tasks s)
                        (λ _, 0%nat) ∅ (mkConn s None 1 [Exec SelectTasks])
                        e w' tally_empty) as Hkind.
  pose proof (events_of_kind (Exec Commit) (plan (scan s))) as Hk.
  run_cases fault s; simpl; intros Hr; try done;
    try (injection Hr as <-; left; split; [done|]; by eexists).
  injection Hr as ->.
  destruct (Hkind _ _ eq_refl) as [?|[-> Hi]]; [by left|]. right.
  split; [done|]. split; [done|]. unfold output. simpl.
  match goal with H : log _ = _ |- _ => rewrite H end. simpl.
  intros Hc. apply elem_of_cons in Hc as [Hc|Hc]; [done|].
  eapply Hk, elem_of_prefix; done.
Qed.

Lemma run_error_kinds_witness :
  (IntegrityError = OperationalError ∧ ∃ k, no_faults k = true)
  ∨ (IntegrityError = IntegrityError
     ∧ task_project_sequence_idx stale_store = true
     ∧ Exec Commit ∉ output (run no_faults stale_store)).
Proof.
  apply (run_error_kinds no_faults stale_store IntegrityError).
  vm_compute. reflexivity.
Defined.

(** ** The index *)

Lemma stamp_plan_key ts x z :
  NoDup (id <$> ts) → x ∈ ts →
  (¬ live x → project_sequence x = None) →
  index_key (stamp (plan ts) x) = Some z →
  ∃ j a, plan ts !! j = Some a ∧ a_task_id a = id x
         ∧ z = (a_project_id a, a_sequence a).
Proof.
  intros Hnd Hx Hdel Hz. destruct (decide (live x)) as [Hl|Hl].
  - destruct (stamp_live ts x Hnd Hx Hl) as (k & Hk & Hst).
    rewrite Hst in Hz. eexists k, _. split; [by apply plan_lookup|].
    split; [done|]. unfold index_key in Hz. simpl in *. by injection Hz as <-.
  - rewrite (stamp_deleted ts x Hnd Hx Hl) in Hz. unfold index_key in Hz.
    by rewrite (Hdel Hl) in Hz.
Qed.

(** When no deleted row holds a number, the rows the plan leaves have no
    two equal pairs of project and number. *)
Lemma unique_ok_after_plan ts :
  NoDup (id <$> ts) →
  Forall (λ t, ¬ live t → project_sequence t = None) ts →
  unique_ok (apply_updates (plan ts) ts) = true.
Proof.
  intros Hnd Hdel. rewrite Forall_forall in Hdel.
  unfold unique_ok. apply bool_decide_eq_true.
  unfold index_keys. rewrite apply_updates_stamp.
  apply NoDup_omap_fmap; [by eapply NoDup_fmap_1|].
  intros x y z Hx Hy Hzx Hzy.
  destruct (stamp_plan_key ts x z Hnd Hx (Hdel x Hx) Hzx)
    as (j & a & Hj & Hida & ->).
  destruct (stamp_plan_key ts y _ Hnd Hy (Hdel y Hy) Hzy)
    as (j' & a' & Hj' & Hida' & [= Hp Hs]).
  assert (j = j') as -> by (eapply plan_key_inj; done).
  apply (NoDup_fmap_eq id ts x y Hnd Hx Hy). congruence.
Qed.

Lemma unique_ok_after_plan_rows s :
  NoDup (id <$> rows s) →
  Forall (λ t, ¬ live t → project_sequence t = None) (rows s) →
  unique_ok (apply_updates (plan (scan s)) (rows s)) = true.
Proof.
  intros Hnd Hdel.
  rewrite <- (unique_ok_after_plan (scan s)).
  - rewrite !apply_updates_stamp. apply unique_ok_perm.
    set (U := plan (scan s)). by rewrite (scan_perm s).
  - by apply NoDup_scan_ids.
  - by rewrite scan_perm.
Qed.

(** A run in which no call fails, on a table without the index. *)
Lemma run_no_index_outcome s :
  task_project_sequence_idx s = false →
  completed (run no_faults s)
  ∧ stored (run no_faults s)
    = mkStore (apply_updates (plan (scan s)) (rows s))
              (unique_ok (apply_updates (plan (scan s)) (rows s)))
  ∧ (Print IndexCreated ∈ output (run no_faults s)
     ↔ unique_ok (apply_updates (plan (scan s)) (rows s)) = true)
  ∧ (Print (IndexFailed IntegrityError) ∈ output (run no_faults s)
     ↔ unique_ok (apply_updates (plan (scan s)) (rows s)) = false).
Proof.
  intros Hi.
  pose proof (events_of_kind (Print IndexCreated) (plan (scan s))) as Hk1.
  pose proof (events_of_kind (Print (IndexFailed IntegrityError))
                (plan (scan s))) as Hk2.
  rewrite run_unfold. cbv zeta.
  destruct (assign_loop_ok no_faults (select_tasks s) (λ _, 0%nat) ∅
              (mkConn s None 1 [Exec SelectTasks]) tally_empty)
    as [ps Hps]; [done|intros H; unfold view in H; simpl in H; congruence|].
  change (numbered (λ _, 0%nat) (select_tasks s)) with (plan (scan s)) in Hps. rewrite Hps.
  change (no_faults _) with false. cbn beta iota.
  rewrite view_after_loop, create_unique_index_eq. cbv zeta.
  change (no_faults _) with false. cbn beta iota.
  cbn [task_project_sequence_idx rows]. rewrite Hi.
  unfold stored, output.
  destruct (unique_ok (apply_updates (plan (scan s)) (rows s))); simpl.
  - split; [done|]. split; [done|]. split.
    + split; [done|]. intros _. log_in.
    + split; [|done]. intros Hc. log_absurd Hc. by apply Hk2.
  - split; [done|]. split; [done|]. split.
    + split; [|done]. intros Hc. log_absurd Hc. by apply Hk1.
    + split; [done|]. intros _. log_in.
Qed.

(** X5. On a table without the index, a run in which no call fails always
    ends normally, whatever the rows hold; afterwards the index exists, and
    the success line was printed, exactly when no two stored rows have the
    same project and number. *)
Theorem run_without_index_always_ends s :
  task_project_sequence_idx s = false →
  completed (run no_faults s)
  ∧ task_project_sequence_idx (stored (run no_faults s))
    = unique_ok (rows (stored (run no_faults s)))
  ∧ (Print IndexCreated ∈ output (run no_faults s)
     ↔ unique_ok (rows (stored (run no_faults s))) = true)
  ∧ (Print (IndexFailed IntegrityError) ∈ output (run no_faults s)
     ↔ unique_ok (rows (stored (run no_faults s))) = false).
Proof.
  intros Hi.
  destruct (run_no_index_outcome s Hi) as (Hdone & Hst & Hok & Hfail).
  rewrite Hst. simpl. by repeat split; try apply Hok; try apply Hfail.
Qed.

Lemma run_without_index_always_ends_witness :
  completed (run no_faults conflict_store)
  ∧ task_project_sequence_idx (stored (run no_faults conflict_store))
    = unique_ok (rows (stored (run no_faults conflict_store)))
  ∧ (Print IndexCreated ∈ output (run no_faults conflict_store)
     ↔ unique_ok (rows (stored (run no_faults conflict_store))) = true)
  ∧ (Print (IndexFailed IntegrityError) ∈ output (run no_faults conflict_store)
     ↔ unique_ok (rows (stored (run no_faults conflict_store))) = false).
Proof.
  apply (run_without_index_always_ends conflict_store). reflexivity.
Defined.

(** X6. On a table with unique ids, without the index, where no deleted row
    holds a number, a run in which no call fails creates the index and
    prints the success line; numbers that rows held before, if they are not
    deleted, do not matter. *)
Theorem fresh_table_gets_index s :
  NoDup (id <$> rows s) →
  Forall (λ t, deleted_at t ≠ None → project_sequence t = None) (rows s) →
  task_project_sequence_idx s = false →
  completed (run no_faults s)
  ∧ task_project_sequence_idx (stored (run no_faults s)) = true
  ∧ Print IndexCreated ∈ output (run no_faults s).
Proof.
  intros Hnd Hdel Hi.
  destruct (run_no_index_outcome s Hi) as (Hdone & Hst & Hok & _).
  pose proof (unique_ok_after_plan_rows s Hnd Hdel) as Hu.
  split; [done|]. split.
  - rewrite Hst. simpl. done.
  - by apply Hok.
Qed.

Lemma fresh_table_gets_index_witness :
  completed (run no_faults (mkStore (example_rows 10 20 30 40 50) false))
  ∧ task_project_sequence_idx
      (stored (run no_faults (mkStore (example_rows 10 20 30 40 50) false)))
    = true
  ∧ Print IndexCreated
    ∈ output (run no_faults (mkStore (example_rows 10 20 30 40 50) false)).
Proof.
  apply (fresh_table_gets_index (mkStore (example_rows 10 20 30 40 50) false)).
  - apply (bool_decide_unpack _). vm_compute. exact I.
  - apply (bool_decide_unpack _). vm_compute. exact I.
  - reflexivity.
Defined.

(** X7. A run never drops the index: a table that has it before the run has
    it after, however the run ends. *)
Theorem index_never_dropped fault s :
  task_project_sequence_idx s = true →
  task_project_sequence_idx (stored (run fault s)) = true.
Proof.
  intros Hi. run_cases fault s; unfold stored; simpl in *; try done.
  congruence.
Qed.

Lemma index_never_dropped_witness :
  task_project_sequence_idx (stored (run (fail_at 2) example_store)) = true.
Proof.
  apply (index_never_dropped (fail_at 2) example_store). reflexivity.
Defined.

(** X8. The success line is never printed without the index: in every run
    that prints it, the stored table has the index. *)
Theorem success_line_means_index fault s :
  Print IndexCreated ∈ output (run fault s) →
  task_project_sequence_idx (stored (run fault s)) = true.
Proof.
  pose proof (events_of_kind (Print IndexCreated) (plan (scan s))) as Hk.
  run_cases fault s; unfold output, stored; simpl in *;
    rewrite ?log_after_loop; simpl; intros Hc; try done.
  all: try match goal with H : log _ = _ |- _ => rewrite H in Hc end.
  all: log_absurd Hc; first [by apply Hk | by eapply Hk, elem_of_prefix].
Qed.

Lemma success_line_means_index_witness :
  task_project_sequence_idx
    (stored (run no_faults (mkStore (example_rows 10 20 30 40 50) false)))
  = true.
Proof.
  apply (success_line_means_index no_faults
           (mkStore (example_rows 10 20 30 40 50) false)).
  apply (bool_decide_unpack _). vm_compute. exact I.
Defined.

(** X9. When a run prints that the index creation failed with an integrity
    error, the stored table has no index and two of its rows have the same
    project and number. *)
Theorem integrity_line_means_duplicates fault s :
  Print (IndexFailed IntegrityError) ∈ output (run fault s) →
  task_project_sequence_idx (stored (run fault s)) = false
  ∧ unique_ok (rows (stored (run fault s))) = false.
Proof.
  pose proof (events_of_kind (Print (IndexFailed IntegrityError))
                (plan (scan s))) as Hk.
  run_cases fault s; unfold output, stored; simpl in *;
    rewrite ?log_after_loop; simpl; intros Hc.
  all: try match goal with H : log _ = _ |- _ => rewrite H in Hc end.
  all: try (log_absurd Hc; first [by apply Hk | by eapply Hk, elem_of_prefix]).
  all: match goal with H : _ || _ = false |- _ =>
         apply orb_false_elim in H as [? ?] end; done.
Qed.

Lemma integrity_line_means_duplicates_witness :
  task_project_sequence_idx (stored (run no_faults conflict_store)) = false
  ∧ unique_ok (rows (stored (run no_faults conflict_store))) = false.
Proof.
  apply (integrity_line_means_duplicates no_faults conflict_store).
  apply (bool_decide_unpack _). vm_compute. exact I.
Defined.

Lemma plan_nil_iff ts : plan ts = [] ↔ fetched_tasks ts = [].
Proof.
  unfold plan. destruct (fetched_tasks ts) as [|[i p] l]; simpl; by split.
Qed.

(** X10. The durable table never breaks its index: if the table a run starts
    from has no two rows with the same project and number whenever it has
    the index, so has the table the run leaves, however the run ends. *)
Theorem run_keeps_index_valid fault s :
  well_formed s → well_formed (stored (run fault s)).
Proof.
  unfold well_formed. intros Hwf.
  assert (task_project_sequence_idx s = true →
          select_tasks s = [] →
          unique_ok (apply_updates (plan (scan s)) (rows s)) = true) as Hnil.
  { intros Hi Hn. apply plan_nil_iff in Hn. rewrite Hn. by apply Hwf. }
  run_cases fault s; unfold stored; simpl in *; try done;
    try (match goal with H : disk _ = s |- _ => rewrite H end; exact Hwf);
    (assert (task_project_sequence_idx s = true →
             unique_ok (apply_updates (plan (scan s)) (rows s)) = true)
       as Hkey
       by (intros Hi; destruct (select_tasks s) eqn:Hs;
           [ by apply Hnil
           | match goal with
             | H : _ ≠ [] → _ |- _ =>
                 specialize (H ltac:(done) Hi);
                 by rewrite view_after_loop in H
             end ]));
    try exact Hkey;
    intros _;
    match goal with H : _ || _ = true |- _ =>
      apply orb_true_iff in H as [Hi|Hu]; [by apply Hkey|done] end.
Qed.

Lemma run_keeps_index_valid_witness :
  well_formed (stored (run (fail_at 7) example_store)).
Proof.
  apply (run_keeps_index_valid (fail_at 7) example_store).
  apply (bool_decide_unpack _). vm_compute. exact I.
Defined.

(** ** Edge cases *)

(** X11. When the table has no row that is not deleted, in particular when
    it is empty, no run sends an [UPDATE] or changes a row, and a run in
    which no call fails ends normally and reports the number of rows that
    held a number before. *)
Theorem nothing_to_number fault s :
  Forall (λ t, deleted_at t ≠ None) (rows s) →
  updates_of (output (run fault s)) = []
  ∧ rows (stored (run fault s)) = rows s
  ∧ completed (run no_faults s)
  ∧ reported (output (run no_faults s)) = Some (count_sequenced (rows s)).
Proof.
  intros Hdel.
  assert (select_tasks s = []) as Hsel.
  { unfold select_tasks, selected.
    assert (filter live (scan s) = []) as ->; [|done].
    assert (Forall (λ t, deleted_at t ≠ None) (scan s)) as Hsc
      by by rewrite scan_perm.
    induction Hsc as [|t l Ht _ IH]; [done|].
    by rewrite filter_cons_False. }
  assert (plan (scan s) = []) as Hplan.
  { apply (plan_nil_iff (scan s)). exact Hsel. }
  assert (∀ f, rows (stored (run f s)) = rows s) as Hrows.
  { intros f. destruct (run_stored_rows f s) as [->| ->]; [done|].
    by rewrite Hplan. }
  assert (completed (run no_faults s)) as Hdone.
  { apply run_no_faults_completed. intros _ k Hk.
    rewrite Hsel in Hk. simpl in Hk. lia. }
  split; [|split; [done|split; [done|]]].
  - pose proof (run_updates_prefix fault s) as Hp. rewrite Hplan in Hp.
    by apply prefix_nil_inv in Hp.
  - by rewrite (run_completed_report _ _ Hdone), Hrows.
Qed.

Lemma nothing_to_number_witness :
  updates_of (output (run no_faults deleted_store)) = []
  ∧ rows (stored (run no_faults deleted_store)) = rows deleted_store
  ∧ completed (run no_faults deleted_store)
  ∧ reported (output (run no_faults deleted_store)) = Some 1.
Proof.
  apply (nothing_to_number no_faults deleted_store).
  apply (bool_decide_unpack _). vm_compute. exact I.
Defined.

(** X12. Nothing is stored before the commit has succeeded: a run that ends
    in an error without having reached the index step, be it in the select,
    in an update or in the commit itself, leaves the table as it was. *)
Theorem error_before_index_step_leaves_store fault s e :
  raised (run fault s) = Some e →
  Exec CreateIndex ∉ output (run fault s) →
  stored (run fault s) = s.
Proof.
  run_cases fault s; unfold output, stored; simpl in *; intros Hr Hc.
  all: try done.
  all: exfalso; apply Hc; rewrite ?log_after_loop; simpl; log_in.
Qed.

Lemma error_before_index_step_leaves_store_witness :
  Exec Commit ∈ output (run (fail_at 5) example_store)
  ∧ stored (run (fail_at 5) example_store) = example_store.
Proof.
  split; [apply (bool_decide_unpack _); vm_compute; exact I|].
  apply (error_before_index_step_leaves_store (fail_at 5) example_store
           OperationalError).
  - vm_compute. reflexivity.
  - apply (bool_decide_unpack _). vm_compute. exact I.
Defined.

(** ** The count *)

Lemma stamp1_keeps_Some t a :
  is_Some (project_sequence t) → is_Some (project_sequence (stamp1 t a)).
Proof. unfold stamp1. destruct (decide _); [by eexists|done]. Qed.

Lemma stamp_keeps_Some U t :
  is_Some (project_sequence t) → is_Some (project_sequence (stamp U t)).
Proof.
  revert t. induction U as [|a U IH]; intros t Ht; [done|].
  change (stamp (a :: U) t) with (stamp U (stamp1 t a)).
  by apply IH, stamp1_keeps_Some.
Qed.

Lemma stamp_is_Some U t :
  id t ∈ a_task_id <$> U → is_Some (project_sequence (stamp U t)).
Proof.
  revert t. induction U as [|a U IH]; intros t Ht.
  - by apply elem_of_nil in Ht.
  - change (stamp (a :: U) t) with (stamp U (stamp1 t a)).
    rewrite fmap_cons in Ht. unfold stamp1.
    destruct (decide (id t = a_task_id a)) as [Heq|Hne].
    + apply stamp_keeps_Some. by eexists.
    + apply IH. apply elem_of_cons in Ht as [Ht|Ht]; done.
Qed.

Lemma length_filter_le_fmap {A B} (f : A → B) (P : B → Prop) (Q : A → Prop)
    `{!∀ x, Decision (P x), !∀ x, Decision (Q x)} (l : list A) :
  (∀ x, x ∈ l → Q x → P (f x)) →
  (length (filter Q l) ≤ length (filter P (f <$> l)))%nat.
Proof.
  induction l as [|x l IH]; intros HQP; [done|].
  rewrite fmap_cons, !filter_cons.
  assert (length (filter Q l) ≤ length (filter P (f <$> l)))%nat as IH'.
  { apply IH. intros y Hy. apply HQP. by right. }
  destruct (decide (Q x)) as [HQ|HQ], (decide (P (f x))) as [HP|HP];
    simpl; try lia.
  exfalso. apply HP, HQP; [by left|done].
Qed.

(** X13. The count a run reports when it ends normally is at least the
    number of tasks that are not deleted, at least the number of rows that
    held a number before the run (a run never clears a number), and at most
    the number of rows. This needs no assumption on the ids. *)
Theorem reported_count_bounds fault s :
  completed (run fault s) →
  ∃ n, reported (output (run fault s)) = Some n
       ∧ Z.of_nat (length (filter live (rows s))) ≤ n
       ∧ count_sequenced (rows s) ≤ n
       ∧ n ≤ Z.of_nat (length (rows s)).
Proof.
  intros Hdone. eexists. split; [by apply run_completed_report|].
  rewrite (run_completed_rows _ _ Hdone), apply_updates_stamp.
  unfold count_sequenced. split; [|split].
  - apply inj_le, length_filter_le_fmap. intros t Ht Hl.
    apply stamp_is_Some. rewrite plan_ids.
    apply list_elem_of_fmap_2. by apply (elem_of_selected_rows t s).
  - apply inj_le, length_filter_le_fmap. intros t _. apply stamp_keeps_Some.
  - apply inj_le. etransitivity; [apply length_filter|]. by rewrite length_fmap.
Qed.

Lemma reported_count_bounds_witness :
  ∃ n, reported (output (run no_faults conflict_store)) = Some n
       ∧ Z.of_nat (length (filter live (rows conflict_store))) ≤ n
       ∧ count_sequenced (rows conflict_store) ≤ n
       ∧ n ≤ Z.of_nat (length (rows conflict_store)).
Proof.
  apply (reported_count_bounds no_faults conflict_store).
  vm_compute. exact I.
Defined.

(** ** The progress lines *)

Lemma task_lines_of_app l1 l2 :
  task_lines_of (l1 ++ l2) = task_lines_of l1 ++ task_lines_of l2.
Proof. apply omap_app. Qed.

Lemma task_lines_of_events_of U :
  task_lines_of (events_of U) = updates_of (events_of U).
Proof.
  induction U as [|a U IH]; [done|].
  unfold events_of in *. rewrite bind_cons, task_lines_of_app, updates_of_app.
  by rewrite IH.
Qed.

Lemma updates_of_turn c i p l :
  updates_of (Exec (UpdateSeq c i) :: Print (TaskLine i p c) :: l)
  = (i, c) :: updates_of l.
Proof. done. Qed.

Lemma task_lines_of_turn c i p l :
  task_lines_of (Exec (UpdateSeq c i) :: Print (TaskLine i p c) :: l)
  = (i, c) :: task_lines_of l.
Proof. done. Qed.

Lemma task_lines_of_prefix U l :
  l `prefix_of` events_of U →
  task_lines_of l = updates_of l
  ∨ ∃ u, updates_of l = task_lines_of l ++ [u].
Proof.
  revert l. induction U as [|a U IH]; intros l Hl.
  - apply prefix_nil_inv in Hl as ->. by left.
  - change (events_of (a :: U))
      with (Exec (UpdateSeq (a_sequence a) (a_task_id a))
            :: Print (TaskLine (a_task_id a) (a_project_id a) (a_sequence a))
            :: events_of U) in Hl.
    destruct l as [|e1 l]; [by left|].
    pose proof (prefix_cons_inv_1 _ _ _ _ Hl) as ->.
    apply prefix_cons_inv_2 in Hl.
    destruct l as [|e2 l]; [right; by eexists|].
    pose proof (prefix_cons_inv_1 _ _ _ _ Hl) as ->.
    apply prefix_cons_inv_2 in Hl.
    rewrite task_lines_of_turn, updates_of_turn.
    destruct (IH l Hl) as [Heq|[u Hu]].
    + left. by rewrite Heq.
    + right. exists u. by rewrite Hu.
Qed.

(** X14. The progress lines tell what was sent: in every run the lines
    printed name, in order, the same tasks and numbers as the [UPDATE]s
    sent, except that a run that raised may have sent one last [UPDATE]
    without its line. *)
Theorem progress_lines_follow_updates fault s :
  task_lines_of (output (run fault s)) = updates_of (output (run fault s))
  ∨ (is_Some (raised (run fault s))
     ∧ ∃ u, updates_of (output (run fault s))
            = task_lines_of (output (run fault s)) ++ [u]).
Proof.
  pose proof (task_lines_of_events_of (plan (scan s))) as Hev.
  run_cases fault s; unfold output; simpl in *; rewrite ?log_after_loop; simpl.
  1: by left.
  all: try (left; rewrite !task_lines_of_app, !updates_of_app, Hev; done).
  match goal with H : log _ = _ |- _ => rewrite H end. simpl.
  match goal with H : _ `prefix_of` _ |- _ =>
    destruct (task_lines_of_prefix _ _ H) as [Heq|[u Hu]] end.
  - by left.
  - right. split; [by eexists|]. by exists u.
Qed.

(** ** Numbers held before the run *)

Lemma same_but_number_key_le a a' b b' :
  fixed_columns a = fixed_columns a' → fixed_columns b = fixed_columns b' →
  key_le a b = key_le a' b'.
Proof. unfold key_le. intros [= _ -> -> _] [= _ -> -> _]. done. Qed.

Lemma insert_row_same t t' l l' :
  fixed_columns t = fixed_columns t' →
  Forall2 (λ a b, fixed_columns a = fixed_columns b) l l' →
  Forall2 (λ a b, fixed_columns a = fixed_columns b)
    (insert_row t l) (insert_row t' l').
Proof.
  intros Ht. induction 1 as [|u u' l l' Hu Hl IH]; simpl.
  - by repeat constructor.
  - rewrite (same_but_number_key_le t t' u u' Ht Hu).
    destruct (key_le t' u'); by repeat constructor.
Qed.

Lemma select_tasks_same ts ts' :
  Forall2 (λ a b, fixed_columns a = fixed_columns b) ts ts' →
  fetched_tasks ts = fetched_tasks ts'.
Proof.
  intros H.
  assert (Forall2 (λ a b, fixed_columns a = fixed_columns b)
            (fetched ts) (fetched ts')) as Hsel.
  { unfold fetched. induction H as [|t t' l l' Ht Hl IH]; [constructor|].
    rewrite !filter_cons.
    assert (live t ↔ live t') as Hlive.
    { unfold live. injection Ht as _ _ _ ->. done. }
    destruct (decide (live t)), (decide (live t')); try tauto.
    change (order_by (t :: filter live l))
      with (insert_row t (order_by (filter live l))).
    change (order_by (t' :: filter live l'))
      with (insert_row t' (order_by (filter live l'))).
    by apply insert_row_same. }
  unfold fetched_tasks. induction Hsel as [|t t' l l' Ht Hl IH]; [done|].
  rewrite !fmap_cons, IH. injection Ht as -> -> _ _. done.
Qed.

(** With the index, numbers held before decide the order of tasks created
    at the same time, and with it the numbers a run stores. *)
Example old_numbers_matter_with_index :
  Forall2 same_but_number (rows old_tied_store) (rows new_tied_store)
  ∧ project_sequence <$> rows (stored (run no_faults old_tied_store))
    = [Some 2; Some 1]
  ∧ project_sequence <$> rows (stored (run no_faults new_tied_store))
    = [Some 1; Some 2].
Proof.
  split; [apply (bool_decide_unpack _); vm_compute; exact I|].
  vm_compute. done.
Qed.

(** X15. On a table without the index a run numbers from scratch: the rows
    it stores do not depend on the numbers that tasks that are not deleted
    held before. Two tables with unique ids and without the index whose rows
    differ at most in those numbers are left with the same rows by any two
    runs that end normally. *)
Theorem old_numbers_do_not_matter fault fault' s s' :
  NoDup (id <$> rows s) →
  task_project_sequence_idx s = false →
  task_project_sequence_idx s' = false →
  Forall2 same_but_number (rows s) (rows s') →
  completed (run fault s) →
  completed (run fault' s') →
  rows (stored (run fault s)) = rows (stored (run fault' s')).
Proof.
  intros Hnd Hi Hi' Hsame Hdone Hdone'.
  assert (scan s = rows s) as Hsc by (unfold scan; by rewrite Hi).
  assert (scan s' = rows s') as Hsc' by (unfold scan; by rewrite Hi').
  assert (Forall2 (λ a b, fixed_columns a = fixed_columns b) (rows s) (rows s'))
    as Hfix.
  { eapply Forall2_impl; [exact Hsame|]. by intros a b [? _]. }
  assert (id <$> rows s = id <$> rows s') as Hids.
  { clear -Hfix. induction Hfix as [|t t' l l' Ht Hl IH]; [done|].
    rewrite !fmap_cons, IH. by injection Ht as ->. }
  assert (NoDup (id <$> rows s')) as Hnd' by by rewrite <- Hids.
  assert (plan (rows s) = plan (rows s')) as Hplan.
  { unfold plan. by rewrite (select_tasks_same _ _ Hfix). }
  rewrite (run_completed_rows _ _ Hdone), (run_completed_rows _ _ Hdone').
  rewrite Hsc, Hsc', !apply_updates_stamp, <- Hplan.
  assert (∀ t t', t ∈ rows s → t' ∈ rows s' → same_but_number t t' →
                  stamp (plan (rows s)) t = stamp (plan (rows s)) t') as Hst.
  { intros t t' Ht Ht' [Hf Hd]. destruct (decide (live t)) as [Hl|Hl].
    - assert (live t') as Hl'.
      { unfold live in *. injection Hf as _ _ _ <-. done. }
      destruct (stamp_live _ t Hnd Ht Hl) as (k & Hk & ->).
      destruct (stamp_live _ t' Hnd' Ht' Hl') as (k' & Hk' & Hst').
      rewrite Hplan, Hst'.
      assert (k = k') as <-.
      { eapply (NoDup_lookup (a_task_id <$> plan (rows s))).
        - rewrite plan_ids. by apply NoDup_selected_ids.
        - by rewrite list_lookup_fmap, (plan_lookup _ _ _ Hk).
        - rewrite Hplan, list_lookup_fmap, (plan_lookup _ _ _ Hk'). simpl.
          by injection Hf as ->. }
      rewrite <- (select_tasks_same _ _ Hfix).
      unfold set_sequence. injection Hf as -> -> -> ->. done.
    - by rewrite (Hd Hl). }
  set (U := plan (rows s)) in *. clearbody U. clear -Hsame Hst. revert Hst.
  induction Hsame as [|t t' l l' Ht Hl IH]; intros Hst; [done|].
  rewrite !fmap_cons. f_equal.
  - apply Hst; [by left|by left|done].
  - apply IH. intros a b Ha Hb. apply Hst; by right.
Qed.

Lemma old_numbers_do_not_matter_witness :
  rows (stored (run no_faults renumbered_store))
  = rows (stored (run no_faults unnumbered_store)).
Proof.
  apply (old_numbers_do_not_matter no_faults no_faults
           renumbered_store unnumbered_store).
  - apply (bool_decide_unpack _). vm_compute. exact I.
  - reflexivity.
  - reflexivity.
  - apply (bool_decide_unpack _). vm_compute. exact I.
  - vm_compute. exact I.
  - vm_compute. exact I.
Defined.
